(** * Dotcoin: a shallow embedding of the wallet, the miner and the validator

    The development follows the three source files of the repository:
    - [core/common.mjs]  key derivation, signatures and the nonce search,
    - [core/client.mjs]  [DotcoinClient]: balance, transaction builder, miner,
    - [core/server.mjs]  [DotcoinServer]: [addTransaction] and [addBlock].

    JavaScript values are modelled as follows.  Addresses, keys, hashes and
    signatures are [string]s.  A field that may hold [null] (or be missing)
    is an [option]; JavaScript truthiness of such a field is [truthy].
    Amounts are taken in the integers ([Z]): the arithmetic of the source,
    that of IEEE doubles, is the arithmetic of the integers as long as the
    amounts are integers whose magnitudes add up to at most 2^53
    ([exactSum]); [Doubles] runs the sums of the source that leave that
    range.  The calls of the store are taken to succeed, and the difficulty
    and the limit of a configuration to be natural numbers.
    An [async] function is modelled by the sequential function it awaits to.
    A call that may raise returns a [result]; a method with a [while (true)]
    loop takes a fuel argument and returns an [outcome], which is
    [OutOfFuel] when the fuel is exhausted. *)

From Stdlib Require Import ZArith String Ascii List Bool Lia.
From Stdlib Require SpecFloat.
From stdpp Require Import base option list gmap strings pretty.

Open Scope string_scope.
Open Scope list_scope.
Open Scope Z_scope.

(** ** Exceptions and outcomes *)

(** Why the validator rejected ([new ValidationError(...)] in server.mjs). *)
Inductive rejection : Type :=
| SignatureCountMismatch
| DuplicateInput (utxoIn : string)
| UtxoMissing (utxoIn : string)
| InvalidSignature (utxoIn : string)
| DuplicateOutputAddress (address : string)
| InvalidOutputAmount (address : string)
| InsufficientInput (totalInput totalOutput : Z)
| BadDifficulty
| PreviousBlockMissing (previous : string)
| PreviousBlockMismatch (previous : string)
| TransactionMissing (txId : option string)
| InvalidMerkleRoot
| InvalidCoinbase.

(** Why the wallet refused ([new ClientError(...)] in client.mjs). *)
Inductive refusal : Type :=
| InsufficientFunds
| InvalidTransactionAmount.

Inductive error : Type :=
| ValidationError (why : rejection)
| ClientError (why : refusal)
| LibraryError.  (* an exception raised inside @scure/bip32, @scure/base, ... *)

(** What a call that may raise gives. *)
Inductive result (A : Type) : Type :=
| Ok (a : A)
| Raise (e : error).
Arguments Ok {A} a.
Arguments Raise {A} e.

Definition rbind {A B} (m : result A) (k : A -> result B) : result B :=
  match m with
  | Ok a => k a
  | Raise e => Raise e
  end.

Notation "'let?' x := m 'in' k" := (rbind m (fun x => k))
  (at level 10, x name, m at level 100, k at level 200).

(** What a method with a [while (true)] loop gives: the loops are run on a
    budget of rounds, and [OutOfFuel] tells that the budget was spent. *)
Inductive outcome (A : Type) : Type :=
| Ret (a : A)
| Throw (e : error)
| OutOfFuel.
Arguments Ret {A} a.
Arguments Throw {A} e.
Arguments OutOfFuel {A}.

Definition finished {A} (r : result A) : outcome A :=
  match r with
  | Ok a => Ret a
  | Raise e => Throw e
  end.
Coercion finished : result >-> outcome.

Definition obind {A B} (m : outcome A) (k : A -> outcome B) : outcome B :=
  match m with
  | Ret a => k a
  | Throw e => Throw e
  | OutOfFuel => OutOfFuel
  end.

Notation "'let*' x := m 'in' k" := (obind m (fun x => k))
  (at level 10, x name, m at level 100, k at level 200).

(** ** Data model *)

(** [if (x)] on a field holding a string or [null]: [null], [undefined] and
    the empty string are falsy. *)
Definition truthy (x : option string) : bool :=
  match x with
  | Some s => negb (String.eqb s "")
  | None => false
  end.

Module Utxo.
Record t : Type := mk
  { address : string; amount : Z; block : option string; txIn : option string }.
End Utxo.

Module Out.
Record t : Type := mk { address : string; amount : Z }.
End Out.

Module Tx.
Record t : Type := mk
  { _id : option string;
    utxoIns : list string;
    utxoOuts : list Out.t;
    signatures : list string;    (* a missing field is the empty array *)
    block : option string }.

Definition set_id (i : option string) (tx : t) : t :=
  mk i (utxoIns tx) (utxoOuts tx) (signatures tx) (block tx).
Definition set_signatures (s : list string) (tx : t) : t :=
  mk (_id tx) (utxoIns tx) (utxoOuts tx) s (block tx).
Definition set_block (b : option string) (tx : t) : t :=
  mk (_id tx) (utxoIns tx) (utxoOuts tx) (signatures tx) b.
End Tx.

Module Block.
Record t : Type := mk
  { _id : option string;
    previous : option string;
    root : string;
    nonce : option string }.

Definition set_id (i : option string) (b : t) : t :=
  mk i (previous b) (root b) (nonce b).
Definition set_nonce (n : option string) (b : t) : t :=
  mk (_id b) (previous b) (root b) n.
End Block.

(** What [getReceiveKeys], [getChangeKeys] and [getChildKeys] return:
    [{privateKey, publicKey}], the private key missing when the parent key
    was a public one. *)
Record KeyPair : Type := mkKeyPair
  { privateKey : option string; publicKey : string }.

Definition bytes : Type := list Byte.byte.

(** ** The libraries and [utils/utils.mjs]

    The npm packages (@scure/bip39, @scure/bip32, @scure/base,
    @noble/hashes) and the hashing helpers of [utils/utils.mjs] are not part
    of the sources at hand: the embedding is parametric in them. *)
Class Lib : Type := {
  HDKey : Type;
  (* @scure/bip39 and @scure/bip32 *)
  mnemonicToSeed : string -> result bytes;
  fromMasterSeed : bytes -> result HDKey;
  derive : HDKey -> string -> result HDKey;
  fromExtendedKey : string -> result HDKey;
  deriveChild : HDKey -> nat -> result HDKey;
  hasPrivateKey : HDKey -> bool;
  privateExtendedKey : HDKey -> result string;
  publicExtendedKey : HDKey -> string;
  hd_sign : HDKey -> bytes -> result bytes;
  hd_verify : HDKey -> bytes -> bytes -> result bool;
  (* base58check(keccak_256): radix conversion and checksum comparison of a
     string over the base58 alphabet, and the encoder *)
  base58_decode_checked : string -> result bytes;
  base58_encode : bytes -> string;
  (* utils/utils.mjs *)
  getTransactionHash : Tx.t -> string;
  getBlockHash : Block.t -> string;
  getMerkleRoot : list (option string) -> string
}.

(** The base58 alphabet of @scure/base; decoding a string with a character
    outside of it raises. *)
Definition base58_alphabet : string :=
  "123456789ABCDEFGHJKLMNPQRSTUVWXYZabcdefghijkmnopqrstuvwxyz".

Definition in_alphabet (c : ascii) : bool :=
  existsb (Ascii.eqb c) (list_ascii_of_string base58_alphabet).

Definition base58_decode `{Lib} (s : string) : result bytes :=
  if forallb in_alphabet (list_ascii_of_string s)
  then base58_decode_checked s
  else Raise LibraryError.

(** ** core/common.mjs *)

Section Common.
Context `{L : Lib}.

(** [`m/44'/1'/${account}'/1`] and [`m/44'/1'/${account}'/0`] *)
Definition receivePath (account : N) : string :=
  "m/44'/1'/" +:+ pretty account +:+ "'/1".
Definition changePath (account : N) : string :=
  "m/44'/1'/" +:+ pretty account +:+ "'/0".

Definition getReceiveKeys (mnemonic : string) (account : N) : result KeyPair :=
  let? seed := mnemonicToSeed mnemonic in
  let? root := fromMasterSeed seed in
  let? receiveKey := derive root (receivePath account) in
  let? priv := privateExtendedKey receiveKey in
  Ok (mkKeyPair (Some priv) (publicExtendedKey receiveKey)).

Definition getChangeKeys (mnemonic : string) (account : N) : result KeyPair :=
  let? seed := mnemonicToSeed mnemonic in
  let? root := fromMasterSeed seed in
  let? changeKey := derive root (changePath account) in
  let? priv := privateExtendedKey changeKey in
  Ok (mkKeyPair (Some priv) (publicExtendedKey changeKey)).

Definition getChildKeys (key : string) (index : nat) : result KeyPair :=
  let? parent := fromExtendedKey key in
  let? child := deriveChild parent index in
  if hasPrivateKey parent then
    let? priv := privateExtendedKey child in
    Ok (mkKeyPair (Some priv) (publicExtendedKey child))
  else
    Ok (mkKeyPair None (publicExtendedKey child)).

Definition signHash (hash privateKey : string) : result string :=
  let? keyPair := fromExtendedKey privateKey in
  let? decodedHash := base58_decode hash in
  let? signature := hd_sign keyPair decodedHash in
  Ok (base58_encode signature).

Definition verifySignature (hash publicKey sig : string) : result bool :=
  let? decodedHash := base58_decode hash in
  let? decodedSig := base58_decode sig in
  let? keyPair := fromExtendedKey publicKey in
  hd_verify keyPair decodedHash decodedSig.

(** ["1".repeat(difficulty)] *)
Fixpoint repeat1 (difficulty : nat) : string :=
  match difficulty with
  | O => ""
  | S d => String "1" (repeat1 d)
  end.

(** [s.startsWith(prefix)] *)
Definition startsWith (s prefix : string) : bool := String.prefix prefix s.

(** [new Uint8Array([...(nonce.toString())].map(c => c.charCodeAt(0)))] *)
Definition nonceArray (nonce : nat) : bytes :=
  map byte_of_ascii (list_ascii_of_string (pretty nonce)).

(** The loop of [findNonce], started at [nonce]; each round overwrites
    [block.nonce], and the round that succeeds sets [block._id]. *)
Fixpoint findNonce_from (fuel : nat) (nonce : nat) (block : Block.t)
    (prefix : string) : outcome Block.t :=
  match fuel with
  | O => OutOfFuel
  | S fuel' =>
      let block := Block.set_nonce (Some (base58_encode (nonceArray nonce))) block in
      let blockId := getBlockHash block in
      if startsWith blockId prefix
      then Ret (Block.set_id (Some blockId) block)
      else findNonce_from fuel' (S nonce) block prefix
  end.

Definition findNonce (fuel : nat) (block : Block.t) (difficulty : nat)
    : outcome Block.t :=
  let prefix := repeat1 difficulty in
  findNonce_from fuel 0 block prefix.
End Common.

(** ** The ledger store

    [database/database-read.mjs] and [database/database-write.mjs] are not
    among the sources; the store follows the collaborator contract of the
    specification (section 6) and its data model (section 3). *)

(** Modelled from the spec: the store holds the UTXO records keyed by
    address, the transactions and the blocks, both in insertion order. *)
Record Db : Type := mkDb
  { utxos : gmap string Utxo.t;
    transactions : list Tx.t;
    blocks : list Block.t }.

Module Store.
(** Modelled from the spec: [getUtxo(address) -> UTXO|null], the record
    kept under the address, spent or not. *)
Definition getUtxo (db : Db) (address : string) : option Utxo.t :=
  utxos db !! address.

(** Modelled from the spec: [getTransaction(id) -> Transaction|null]. *)
Definition getTransaction (db : Db) (id : option string) : option Tx.t :=
  match id with
  | Some i => List.find (fun tx => bool_decide (Tx._id tx = Some i)) (transactions db)
  | None => None
  end.

(** Modelled from the spec: [getBlock(id) -> Block|null]. *)
Definition getBlock (db : Db) (id : string) : option Block.t :=
  List.find (fun b => bool_decide (Block._id b = Some id)) (blocks db).

(** Modelled from the spec: one page of a listing, oldest first for
    [sort = 1] and newest first for [sort = -1]. *)
Definition page {A} (l : list A) (page limit : nat) (sort : Z) : list A :=
  let sorted := if Z.eqb sort (-1) then rev l else l in
  firstn limit (skipn (page * limit) sorted).

(** Modelled from the spec:
    [getTransactions(page, pageSize, sort, unconfirmedOnly)], the
    unconfirmed transactions being those whose [block] is [null]. *)
Definition getTransactions (db : Db) (pg limit : nat) (sort : Z)
    (unconfirmed : bool) : list Tx.t :=
  let all := if unconfirmed
             then List.filter (fun tx => bool_decide (Tx.block tx = None))
                              (transactions db)
             else transactions db in
  page all pg limit sort.

(** Modelled from the spec: [getBlocks(page, pageSize, sort)]. *)
Definition getBlocks (db : Db) (pg limit : nat) (sort : Z) : list Block.t :=
  page (blocks db) pg limit sort.

(** Modelled from the spec: the two updates of a UTXO record, its spender
    and its block. *)
Definition set_txIn (txId : option string) (u : Utxo.t) : Utxo.t :=
  Utxo.mk (Utxo.address u) (Utxo.amount u) (Utxo.block u) txId.
Definition set_block (blockId : option string) (u : Utxo.t) : Utxo.t :=
  Utxo.mk (Utxo.address u) (Utxo.amount u) blockId (Utxo.txIn u).

(** Modelled from the spec: [spend(txId, addresses)] marks each UTXO's
    spender. *)
Definition spendUtxos (txId : option string) (addresses : list string)
    (db : Db) : Db :=
  mkDb (fold_left (fun m a => alter (set_txIn txId) a m) addresses (utxos db))
       (transactions db) (blocks db).

(** Modelled from the spec: [addTransaction(tx)] persists the transaction;
    a UTXO record is created for each of its outputs, with the
    transaction's block and no spender. *)
Definition addTransaction (tx : Tx.t) (db : Db) : Db :=
  mkDb (fold_left
          (fun m o => <[Out.address o := Utxo.mk (Out.address o) (Out.amount o)
                                                   (Tx.block tx) None]> m)
          (Tx.utxoOuts tx) (utxos db))
       (transactions db ++ [tx]) (blocks db).

(** Modelled from the spec: [confirmTransactions(blockId, txIds)] attaches
    the block to the transactions listed and to the UTXOs they created. *)
Definition confirmTransactions (blockId : string) (txIds : list (option string))
    (db : Db) : Db :=
  let listed tx := bool_decide (Tx._id tx ∈ txIds) in
  let outs := flat_map (fun tx => map Out.address (Tx.utxoOuts tx))
                       (List.filter listed (transactions db)) in
  mkDb (fold_left (fun m a => alter (set_block (Some blockId)) a m) outs (utxos db))
       (map (fun tx => if listed tx then Tx.set_block (Some blockId) tx else tx)
            (transactions db))
       (blocks db).

(** Modelled from the spec: [addBlock(block)] persists the block. *)
Definition addBlock (block : Block.t) (db : Db) : Db :=
  mkDb (utxos db) (transactions db) (blocks db ++ [block]).
End Store.

(** ** Configuration *)

Module Config.
Record t : Type := mk
  { mnemonic : option string;
    difficulty : option nat;
    limit : option nat;
    amount : option Z }.
End Config.

(** [x || d] on numbers: [undefined] and [0] give way to the default.  The
    difficulty and the limit are taken to be natural numbers, the amount an
    integer. *)
Definition nat_or (x : option nat) (d : nat) : nat :=
  match x with
  | Some (S n) => S n
  | _ => d
  end.

Definition Z_or (x : option Z) (d : Z) : Z :=
  match x with
  | Some 0 | None => d
  | Some z => z
  end.

Definition string_or (x : option string) (d : string) : string :=
  if truthy x then default d x else d.

(** ** core/client.mjs *)

Module Client.
Record t : Type := mk
  { mnemonic : string; difficulty : nat; limit : nat; amount : Z }.
End Client.

(** The constructor; [generated] is what [common.createMnemonic()] draws. *)
Definition DotcoinClient (config : Config.t) (generated : string) : Client.t :=
  Client.mk (string_or (Config.mnemonic config) generated)
            (nat_or (Config.difficulty config) 1)
            (nat_or (Config.limit config) 1024)
            (Z_or (Config.amount config) 100).

Record Balance : Type := mkBalance { usable : Z; pending : Z }.

Inductive chain : Type := receive | change.

(** [{ ...utxo, childIndex, type }] *)
Record Selected : Type := mkSelected
  { utxo : Utxo.t; childIndex : nat; type : chain }.

(** The variables the selection loop of [createTransaction] updates. *)
Record Selection : Type := mkSelection
  { total : Z; selectedUtxos : list Selected; utxoIns : list string }.

(** [{ block, coinbase, transactions }] *)
Module Mined.
Record t : Type := mk
  { block : Block.t; coinbase : Tx.t; transactions : list (option string) }.
End Mined.

(** [Array.isArray(x) ? x : x ? [x] : []] on what [getUtxo] returned. *)
Definition toArray (x : option Utxo.t) : list Utxo.t :=
  match x with
  | Some u => [u]
  | None => []
  end.

(** Calling a function of common.mjs on a key that may be [undefined]. *)
Definition withKey {A} (k : option string) (f : string -> result A) : result A :=
  match k with
  | Some key => f key
  | None => Raise LibraryError
  end.

Section ClientMethods.
Context `{L : Lib}.
Variable this : Client.t.
Variable db : Db.   (* this.db, a DatabaseRead *)

Definition getMnemonic : string := Client.mnemonic this.

Definition getReceivingAddress (account : N) : result string :=
  let? keys := getReceiveKeys (Client.mnemonic this) account in
  Ok (publicKey keys).

(** The body of [for (const utxo of allUtxos)] in [getBalance]. *)
Definition tally (totals : Z * Z) (utxo : Utxo.t) : Z * Z :=
  let '(totalUsable, totalPending) := totals in
  if truthy (Utxo.txIn utxo) then (totalUsable, totalPending)
  else if truthy (Utxo.block utxo)
       then (totalUsable + Utxo.amount utxo, totalPending)
       else (totalUsable, totalPending + Utxo.amount utxo).

(** The [while (true)] loop of [getBalance], entered at [childIndex]. *)
Fixpoint getBalance_from (fuel : nat) (account : N) (childIndex : nat)
    (totals : Z * Z) : outcome Balance :=
  match fuel with
  | O => OutOfFuel
  | S fuel' =>
      let* receiveParent := getReceiveKeys (Client.mnemonic this) account in
      let* changeParent := getChangeKeys (Client.mnemonic this) account in
      let* receiveKeys := getChildKeys (publicKey receiveParent) childIndex in
      let* changeKeys := getChildKeys (publicKey changeParent) childIndex in
      let receiveUtxos := Store.getUtxo db (publicKey receiveKeys) in
      let changeUtxos := Store.getUtxo db (publicKey changeKeys) in
      if negb (bool_decide (is_Some receiveUtxos)) && negb (bool_decide (is_Some changeUtxos))
      then Ret (mkBalance (fst totals) (snd totals))
      else
        let allUtxos := toArray receiveUtxos ++ toArray changeUtxos in
        getBalance_from fuel' account (S childIndex) (fold_left tally allUtxos totals)
  end.

Definition getBalance (fuel : nat) (account : N) : outcome Balance :=
  getBalance_from fuel account 0%nat (0, 0).

(** The [for (const utxo of allUtxos)] loop of [createTransaction]. *)
Fixpoint selectFrom (amount : Z) (receiveAddress : string) (index : nat)
    (allUtxos : list Utxo.t) (sel : Selection) : Selection :=
  match allUtxos with
  | [] => sel
  | u :: rest =>
      if truthy (Utxo.txIn u) then selectFrom amount receiveAddress index rest sel
      else if negb (truthy (Utxo.block u))
      then selectFrom amount receiveAddress index rest sel
      else if amount <=? total sel then sel
      else
        let type := if String.eqb (Utxo.address u) receiveAddress
                    then receive else change in
        selectFrom amount receiveAddress index rest
          (mkSelection (total sel + Utxo.amount u)
                       (selectedUtxos sel ++ [mkSelected u index type])
                       (utxoIns sel ++ [Utxo.address u]))
  end.

(** The [while (total < amount)] loop of [createTransaction]. *)
Fixpoint selectUtxos (fuel : nat) (account : N) (amount : Z) (index : nat)
    (sel : Selection) : outcome Selection :=
  if total sel <? amount then
    match fuel with
    | O => OutOfFuel
    | S fuel' =>
        let* receiveParent := getReceiveKeys (Client.mnemonic this) account in
        let* changeParent := getChangeKeys (Client.mnemonic this) account in
        let* receiveKeys := getChildKeys (publicKey receiveParent) index in
        let* changeKeys := getChildKeys (publicKey changeParent) index in
        let receiveAddress := publicKey receiveKeys in
        let changeAddress := publicKey changeKeys in
        let allUtxos := toArray (Store.getUtxo db receiveAddress)
                        ++ toArray (Store.getUtxo db changeAddress) in
        if Nat.eqb (length allUtxos) 0 && Nat.ltb 0 index then Ret sel
        else selectUtxos fuel' account amount (S index)
               (selectFrom amount receiveAddress index allUtxos sel)
    end
  else Ret sel.

(** The next-unused-address loop.  The source writes it out three times
    (change address and recipient address in [createTransaction], reward
    address in [mine]), each time as
    [while (true) { derive child; if (!getUtxo(child)) break; index++ }]. *)
Fixpoint nextUnused (fuel : nat) (parentKey : string) (index : nat)
    : outcome string :=
  match fuel with
  | O => OutOfFuel
  | S fuel' =>
      let* derived := getChildKeys parentKey index in
      match Store.getUtxo db (publicKey derived) with
      | None => Ret (publicKey derived)
      | Some _ => nextUnused fuel' parentKey (S index)
      end
  end.

(** The [for (const utxoObj of selectedUtxos)] loop of
    [createTransaction]; the result is [tx.signatures]. *)
Fixpoint signInputs (account : N) (txHash : string) (selected : list Selected)
    : result (list string) :=
  match selected with
  | [] => Ok []
  | utxoObj :: rest =>
      let? parent := match type utxoObj with
                     | receive => getReceiveKeys (Client.mnemonic this) account
                     | change => getChangeKeys (Client.mnemonic this) account
                     end in
      let? keyPair := withKey (privateKey parent)
                        (fun k => getChildKeys k (childIndex utxoObj)) in
      let? signature := withKey (privateKey keyPair) (signHash txHash) in
      let? signatures := signInputs account txHash rest in
      Ok (signature :: signatures)
  end.

Definition createTransaction (fuel : nat) (account : N) (address : string)
    (amount : Z) : outcome Tx.t :=
  let* sel := selectUtxos fuel account amount 0%nat (mkSelection 0 [] []) in
  if total sel <? amount then Throw (ClientError InsufficientFunds) else
  let change := total sel - amount in
  if change <? 0 then Throw (ClientError InvalidTransactionAmount) else
  let* changeAddressForOutput :=
    (if 0 <? change then
       let* changeParent := getChangeKeys (Client.mnemonic this) account in
       let* a := nextUnused fuel (publicKey changeParent) 0%nat in
       Ret (Some a)
     else Ret None) in
  let* recipientAddress := nextUnused fuel address 0%nat in
  let utxoOuts :=
    Out.mk recipientAddress amount ::
    (if 0 <? change
     then match changeAddressForOutput with
          | Some a => [Out.mk a change]
          | None => []
          end
     else []) in
  let tx := Tx.mk None (utxoIns sel) utxoOuts [] None in
  let txHash := getTransactionHash tx in
  let* signatures := signInputs account txHash (selectedUtxos sel) in
  let tx := Tx.set_signatures signatures tx in
  Ret (Tx.set_id (Some (getTransactionHash tx)) tx).

Definition mine (fuel : nat) (account : N) : outcome Mined.t :=
  let* parent := getReceiveKeys (Client.mnemonic this) account in
  let* publicKey := nextUnused fuel (publicKey parent) 0%nat in
  let coinbase := Tx.mk None [] [Out.mk publicKey (Client.amount this)] [] None in
  let coinbase := Tx.set_id (Some (getTransactionHash coinbase)) coinbase in
  let unconfirmedTxs := Store.getTransactions db 0 100 1 true in
  let transactionsToMine := coinbase :: unconfirmedTxs in
  let lastBlocks := Store.getBlocks db 0 1 (-1) in
  let lastBlock := head lastBlocks in
  let txIds := map Tx._id transactionsToMine in
  let blockCandidate :=
    Block.mk None
             (match lastBlock with Some b => Block._id b | None => None end)
             (getMerkleRoot txIds)
             None in
  let* minedBlock := findNonce fuel blockCandidate (Client.difficulty this) in
  let minedBlock := Block.set_id (Some (getBlockHash minedBlock)) minedBlock in
  Ret (Mined.mk minedBlock coinbase (map Tx._id unconfirmedTxs)).
End ClientMethods.

(** ** core/server.mjs *)

Module Server.
Record t : Type := mk { difficulty : nat; limit : nat; amount : Z }.
End Server.

Definition DotcoinServer (config : Config.t) : Server.t :=
  Server.mk (nat_or (Config.difficulty config) 1)
            (nat_or (Config.limit config) 1024)
            (Z_or (Config.amount config) 100).

(** The server's methods read and write [this.db], a DatabaseWrite: they are
    state transformers that may raise, and a raise keeps the writes made
    before it.  The calls of the store themselves are taken to succeed: the
    exceptions are those the methods and the libraries raise. *)
Definition M (A : Type) : Type := Db -> result A * Db.

Definition mret {A} (a : A) : M A := fun db => (Ok a, db).
Definition mthrow {A} (e : error) : M A := fun db => (Raise e, db).
Definition lift {A} (r : result A) : M A := fun db => (r, db).
Definition reading {A} (f : Db -> A) : M A := fun db => (Ok (f db), db).
Definition writing (f : Db -> Db) : M unit := fun db => (Ok tt, f db).
Definition mbind {A B} (m : M A) (k : A -> M B) : M B :=
  fun db =>
    match m db with
    | (Ok a, db') => k a db'
    | (Raise e, db') => (Raise e, db')
    end.

Notation "'let!' x := m 'in' k" := (mbind m (fun x => k))
  (at level 10, x name, m at level 100, k at level 200).
Notation "m ;;; k" := (mbind m (fun _ => k))
  (at level 100, k at level 200, right associativity).

Definition reject {A} (why : rejection) : M A := mthrow (ValidationError why).

(** An entry of the [transactions] argument of [addBlock]: a transaction id,
    or an object with an [_id] property. *)
Inductive TxRef : Type :=
| RefId (txId : string)
| RefObject (_id : option string).

Definition refId (txEntry : TxRef) : option string :=
  match txEntry with
  | RefId txId => Some txId
  | RefObject i => i
  end.

(** [array.indexOf(x)]; the length of the array stands for [-1], both index
    nothing. *)
Fixpoint indexOf (l : list string) (x : string) : nat :=
  match l with
  | [] => O
  | y :: rest => if String.eqb y x then O else S (indexOf rest x)
  end.

Section ServerMethods.
Context `{L : Lib}.
Variable this : Server.t.

(** The first [for] loop of [addTransaction], on the inputs still to be
    visited, with the [seenInputs] gathered so far. *)
Fixpoint checkInputs (txParams : Tx.t) (txHash : string)
    (seenInputs : gset string) (ins : list string) : M unit :=
  match ins with
  | [] => mret tt
  | utxoIn :: rest =>
      if bool_decide (utxoIn ∈ seenInputs) then reject (DuplicateInput utxoIn) else
      let seenInputs := {[utxoIn]} ∪ seenInputs in
      let! found := reading (fun db => Store.getUtxo db utxoIn) in
      match found with
      | None => reject (UtxoMissing utxoIn)
      | Some utxo =>
          let signatureIndex := indexOf (Tx.utxoIns txParams) utxoIn in
          let signature := Tx.signatures txParams !! signatureIndex in
          let derivedKey := Utxo.address utxo in
          let! isValid := lift (withKey signature (verifySignature txHash derivedKey)) in
          if negb isValid then reject (InvalidSignature utxoIn)
          else checkInputs txParams txHash seenInputs rest
      end
  end.

(** The second [for] loop of [addTransaction]. *)
Fixpoint checkOutputs (addresses : gset string) (outs : list Out.t) : M unit :=
  match outs with
  | [] => mret tt
  | utxoOut :: rest =>
      if bool_decide (Out.address utxoOut ∈ addresses)
      then reject (DuplicateOutputAddress (Out.address utxoOut))
      else
        let addresses := {[Out.address utxoOut]} ∪ addresses in
        if Out.amount utxoOut <=? 0
        then reject (InvalidOutputAmount (Out.address utxoOut))
        else checkOutputs addresses rest
  end.

(** The third [for] loop of [addTransaction]. *)
Fixpoint sumInputs (totalInput : Z) (ins : list string) : M Z :=
  match ins with
  | [] => mret totalInput
  | utxoIn :: rest =>
      let! found := reading (fun db => Store.getUtxo db utxoIn) in
      match found with
      | Some utxo => sumInputs (totalInput + Utxo.amount utxo) rest
      | None => sumInputs totalInput rest
      end
  end.

(** [txParams.utxoOuts.reduce((sum, utxoOut) => sum + utxoOut.amount, 0)] *)
Definition sumOutputs (outs : list Out.t) : Z :=
  fold_left (fun sum utxoOut => sum + Out.amount utxoOut) outs 0.

(** The fourth [for] loop of [addTransaction]. *)
Fixpoint spendInputs (txId : option string) (ins : list string) : M unit :=
  match ins with
  | [] => mret tt
  | inputAddress :: rest =>
      writing (Store.spendUtxos txId [inputAddress]) ;;;
      spendInputs txId rest
  end.

Definition addTransaction (txParams : Tx.t) : M unit :=
  if negb (Nat.eqb (length (Tx.utxoIns txParams)) (length (Tx.signatures txParams)))
  then reject SignatureCountMismatch else
  let txWithoutSignatures := Tx.set_signatures [] txParams in
  let txHash := getTransactionHash txWithoutSignatures in
  checkInputs txParams txHash ∅ (Tx.utxoIns txParams) ;;;
  checkOutputs ∅ (Tx.utxoOuts txParams) ;;;
  let! totalInput := sumInputs 0 (Tx.utxoIns txParams) in
  let totalOutput := sumOutputs (Tx.utxoOuts txParams) in
  if totalInput <? totalOutput
  then reject (InsufficientInput totalInput totalOutput) else
  spendInputs (Tx._id txParams) (Tx.utxoIns txParams) ;;;
  writing (Store.addTransaction (Tx.set_block None txParams)).

(** The [for (const txEntry of transactions)] loop of [addBlock]. *)
Fixpoint fetchTransactions (transactions : list TxRef) : M (list Tx.t) :=
  match transactions with
  | [] => mret []
  | txEntry :: rest =>
      let txId := refId txEntry in
      let! found := reading (fun db => Store.getTransaction db txId) in
      match found with
      | None => reject (TransactionMissing txId)
      | Some tx =>
          let! fetched := fetchTransactions rest in
          mret (tx :: fetched)
      end
  end.

(** [coinbase.utxoIns.length > 0 || coinbase.utxoOuts.length !== 1 ||
     coinbase.utxoOuts[0].amount !== this.amount] *)
Definition badCoinbase (coinbase : Tx.t) : bool :=
  Nat.ltb 0 (length (Tx.utxoIns coinbase))
  || negb (Nat.eqb (length (Tx.utxoOuts coinbase)) 1)
  || match Tx.utxoOuts coinbase with
     | o :: _ => negb (Out.amount o =? Server.amount this)
     | [] => true
     end.

Definition addBlock (block : Block.t) (coinbase : Tx.t)
    (transactions : list TxRef) : M unit :=
  let blockHash := getBlockHash block in
  if negb (startsWith blockHash (repeat1 (Server.difficulty this)))
  then reject BadDifficulty else
  (if truthy (Block.previous block) then
     let previous := default "" (Block.previous block) in
     let! previousBlock := reading (fun db => Store.getBlock db previous) in
     match previousBlock with
     | None => reject (PreviousBlockMissing previous)
     | Some pb =>
         if negb (bool_decide (Block._id pb = Block.previous block))
         then reject (PreviousBlockMismatch previous)
         else mret tt
     end
   else mret tt) ;;;
  let! fetchedTxs := fetchTransactions transactions in
  let txHashes := map getTransactionHash fetchedTxs in
  let coinbaseHash := getTransactionHash coinbase in
  let root := getMerkleRoot (Some coinbaseHash :: map Some txHashes) in
  if negb (String.eqb (Block.root block) root) then reject InvalidMerkleRoot else
  if badCoinbase coinbase then reject InvalidCoinbase else
  let block := Block.set_id (Some blockHash) block in
  writing (Store.addBlock block) ;;;
  let txIds := map refId transactions in
  writing (Store.confirmTransactions blockHash txIds) ;;;
  let coinbase := Tx.set_block (Some blockHash) coinbase in
  writing (Store.addTransaction coinbase).

Definition getUtxo (address : string) : M (option Utxo.t) :=
  reading (fun db => Store.getUtxo db address).
End ServerMethods.

(** * The vocabulary of the properties *)

(** A computation that only reads the store. *)
Definition readonly {A} (m : M A) : Prop := forall db, snd (m db) = db.

Section Vocabulary.
Context `{L : Lib}.

(** The store after an accepted block. *)
Definition blockCommitted (block : Block.t) (coinbase : Tx.t)
    (transactions : list TxRef) (db : Db) : Db :=
  let blockHash := getBlockHash block in
  Store.addTransaction (Tx.set_block (Some blockHash) coinbase)
    (Store.confirmTransactions blockHash (map refId transactions)
       (Store.addBlock (Block.set_id (Some blockHash) block) db)).

(** The candidate the search hashes at a given nonce. *)
Definition withNonce (block : Block.t) (nonce : nat) : Block.t :=
  Block.set_nonce (Some (base58_encode (nonceArray nonce))) block.

(** [getChildKeys(parentKey, index).publicKey] *)
Definition childAddress (parentKey : string) (index : nat) : result string :=
  let? keys := getChildKeys parentKey index in
  Ok (publicKey keys).

(** The transactions a list of references resolves to in the pool. *)
Definition resolved (db : Db) (transactions : list TxRef) (fetched : list Tx.t) : Prop :=
  Forall2 (fun r tx => Store.getTransaction db (refId r) = Some tx) transactions fetched.

(** What [addBlock] recomputes from the coinbase and the resolved
    transactions: [merkleRoot([coinbaseHash, tx1Hash, ...])]. *)
Definition recomputedRoot (coinbase : Tx.t) (fetched : list Tx.t) : string :=
  getMerkleRoot (map (fun tx => Some (getTransactionHash tx)) (coinbase :: fetched)).

(** A coinbase as the validator wants it: no input, one output, of the
    reward. *)
Definition wellFormedCoinbase (reward : Z) (coinbase : Tx.t) : Prop :=
  Tx.utxoIns coinbase = []
  /\ exists address, Tx.utxoOuts coinbase = [Out.mk address reward].

(** The message the signatures are over: the hash of the transaction with
    its signatures cleared. *)
Definition signedMessage (tx : Tx.t) : string :=
  getTransactionHash (Tx.set_signatures [] tx).

(** The sum of the amounts of the input UTXOs found in the store. *)
Definition inputTotal (db : Db) (ins : list string) : Z :=
  foldr Z.add 0 (map Utxo.amount (omap (Store.getUtxo db) ins)).

(** The sum of the output amounts. *)
Definition outputTotal (outs : list Out.t) : Z :=
  foldr Z.add 0 (map Out.amount outs).

(** The store after a transaction is accepted: its inputs are spent by it,
    and it is in the pool, unconfirmed. *)
Definition pooledWith (tx : Tx.t) (db : Db) : Db :=
  Store.addTransaction (Tx.set_block None tx)
    (Store.spendUtxos (Tx._id tx) (Tx.utxoIns tx) db).

(** The hash of a transaction does not cover its [_id]: [mine] and
    [createTransaction] hash a transaction before they set its [_id], the
    validator hashes it after. *)
Definition hashIgnoresId : Prop :=
  forall tx i, getTransactionHash (Tx.set_id i tx) = getTransactionHash tx.
End Vocabulary.



(** The sum of the amounts of a list of records. *)
Definition sumAmounts (us : list Utxo.t) : Z := foldr Z.add 0 (map Utxo.amount us).




(** [utxo.address === receiveAddress ? 'receive' : 'change'] *)
Definition typeOf (receiveAddress : string) (u : Utxo.t) : chain :=
  if String.eqb (Utxo.address u) receiveAddress then receive else change.

Section WalletVocabulary.
Context `{L : Lib}.
Variable this : Client.t.
Variable db : Db.
Variable account : N.

(** Every index from [from] up to [upto] (excluded) derives an address that
    has a UTXO record. *)
Definition allUsed (parentKey : string) (from upto : nat) : Prop :=
  forall j, (from <= j < upto)%nat ->
    exists a, childAddress parentKey j = Ok a /\ is_Some (Store.getUtxo db a).

(** The transactions [mine] reads from the pool. *)
Definition pool : list Tx.t := Store.getTransactions db 0 100 1 true.

(** [lastBlock ? lastBlock._id : null] *)
Definition tip : option string :=
  match head (Store.getBlocks db 0 1 (-1)) with
  | Some b => Block._id b
  | None => None
  end.

(** The change output of a built transaction, if any. *)
Definition changeOutput (fuel : nat) (change : Z) (outs : list Out.t) : Prop :=
  if 0 <? change
  then exists changeParent a,
         getChangeKeys (Client.mnemonic this) account = Ok changeParent
         /\ nextUnused db fuel (publicKey changeParent) 0 = Ret a
         /\ outs = [Out.mk a change]
  else outs = [].

(** The receive and the change address of the account at a child index. *)
Definition addressesAt (index : nat) : result (string * string) :=
  let? receiveParent := getReceiveKeys (Client.mnemonic this) account in
  let? changeParent := getChangeKeys (Client.mnemonic this) account in
  let? receiveKeys := getChildKeys (publicKey receiveParent) index in
  let? changeKeys := getChildKeys (publicKey changeParent) index in
  Ok (publicKey receiveKeys, publicKey changeKeys).

(** The UTXO records of the two chains at a child index, receive first. *)
Definition recordsAt (index : nat) : result (list Utxo.t) :=
  let? addresses := addressesAt index in
  Ok (toArray (Store.getUtxo db (fst addresses))
      ++ toArray (Store.getUtxo db (snd addresses))).

(** The parent keys of the account on a chain. *)
Definition parentKeys (t : chain) : result KeyPair :=
  match t with
  | receive => getReceiveKeys (Client.mnemonic this) account
  | change => getChangeKeys (Client.mnemonic this) account
  end.

(** The address of the account on a chain at a child index, derived from the
    public parent key. *)
Definition addressAt (t : chain) (index : nat) : result string :=
  let? parent := parentKeys t in
  childAddress (publicKey parent) index.

(** The signature of a message under the private child key of a chain at a
    child index, derived from the private parent key. *)
Definition signatureAt (t : chain) (index : nat) (message : string) : result string :=
  let? parent := parentKeys t in
  let? keyPair := withKey (privateKey parent) (fun k => getChildKeys k index) in
  withKey (privateKey keyPair) (signHash message).

(** What the round trip asks of the libraries and of [utils.mjs]: a
    signature made with a private child key verifies under the public child
    key of the same chain and index; the chains give no address twice; the
    hash of a transaction does not cover its [_id]. *)
Record WalletLaws : Prop := {
  signature_verifies : forall t index a message sig,
    addressAt t index = Ok a ->
    signatureAt t index message = Ok sig ->
    verifySignature message a sig = Ok true;
  addresses_distinct : forall t1 i1 t2 i2 a,
    addressAt t1 i1 = Ok a -> addressAt t2 i2 = Ok a -> t1 = t2 /\ i1 = i2;
  hash_ignores_id : hashIgnoresId
}.

(** Every record is kept under its own address. *)
Definition storeKeyed : Prop :=
  forall a u, Store.getUtxo db a = Some u -> Utxo.address u = a.

(** A selection as the loop builds it, before child index [k]: the inputs
    are the addresses of the selected records, the total is the sum of
    their amounts, every selected record is the one the store keeps at the
    address of its chain and index, and no chain and index is selected
    twice. *)
Definition selectedOk (k : nat) (s : Selected) : Prop :=
  (childIndex s < k)%nat
  /\ addressAt (type s) (childIndex s) = Ok (Utxo.address (utxo s))
  /\ Store.getUtxo db (Utxo.address (utxo s)) = Some (utxo s).

Definition selectionOk (k : nat) (sel : Selection) : Prop :=
  utxoIns sel = map (fun s => Utxo.address (utxo s)) (selectedUtxos sel)
  /\ total sel = sumAmounts (map utxo (selectedUtxos sel))
  /\ Forall (selectedOk k) (selectedUtxos sel)
  /\ NoDup (map (fun s => (type s, childIndex s)) (selectedUtxos sel)).

(** Each input of the selection has a record, under whose address the
    signature made for it verifies. *)
Definition inputsVerify (message : string) (ins signatures : list string) : Prop :=
  Forall2 (fun a sig => exists u, Store.getUtxo db a = Some u
                                  /\ verifySignature message (Utxo.address u) sig = Ok true)
          ins signatures.
End WalletVocabulary.

Arguments signature_verifies {L this account}.
Arguments addresses_distinct {L this account}.
Arguments hash_ignores_id {L this account}.

(** ** Further vocabulary: validation, selection and the library faults *)

(** What the two loops of the wallet take for a spendable record: [txIn]
    falsy and [block] truthy. *)
Definition spendable (u : Utxo.t) : bool :=
  negb (truthy (Utxo.txIn u)) && truthy (Utxo.block u).


(** ** The numbers of the runtime

    The amounts are JavaScript numbers, IEEE 754 doubles.  Every integer of
    magnitude at most 2^53 is a double, and a sum or a difference of doubles
    is rounded only when its exact value is not one: on integer amounts
    whose magnitudes add up to at most 2^53, the totals, the change and the
    comparisons of the source are those of the integers. *)
Definition exactSum (amounts : list Z) : Prop :=
  foldr Z.add 0 (map Z.abs amounts) <= 2 ^ 53.

(** The amounts of the records that a list of inputs names. *)
Definition inputAmounts (db : Db) (ins : list string) : list Z :=
  map Utxo.amount (omap (Store.getUtxo db) ins).

(** The arithmetic of the source itself: binary64, rounded to nearest, ties
    to even. *)
Module Doubles.
Definition number : Type := SpecFloat.spec_float.

(** The double nearest to an integer. *)
Definition ofZ (z : Z) : number := SpecFloat.binary_normalize 53 1024 z 0 false.

(** The integer a double is, when it is one. *)
Definition integer (x : number) : option Z :=
  match x with
  | SpecFloat.S754_zero _ => Some 0
  | SpecFloat.S754_finite s m e =>
      let mantissa := if s then Z.neg m else Z.pos m in
      if 0 <=? e then Some (mantissa * 2 ^ e)
      else if mantissa mod 2 ^ (- e) =? 0 then Some (mantissa / 2 ^ (- e))
      else None
  | _ => None
  end.

Definition add : number -> number -> number := SpecFloat.SFadd 53 1024.
Definition sub : number -> number -> number := SpecFloat.SFsub 53 1024.
Definition ltb : number -> number -> bool := SpecFloat.SFltb.

(** [let total = 0; ... total += utxo.amount] of [createTransaction] and of
    [getBalance], [totalInput += utxo.amount] and
    [utxoOuts.reduce((sum, utxoOut) => sum + utxoOut.amount, 0)] of
    [addTransaction]. *)
Definition total (amounts : list number) : number :=
  fold_left add amounts (ofZ 0).

(** [const change = total - amount] of [createTransaction]. *)
Definition change (selected : list number) (amount : number) : number :=
  sub (total selected) amount.

(** [totalInput < totalOutput] of [addTransaction]. *)
Definition insufficient (inputs outputs : list number) : bool :=
  ltb (total inputs) (total outputs).
End Doubles.

(** An id as an entry of the [transactions] argument of [addBlock]: a string
    is passed as it is; [null] is an object without an [_id]. *)
Definition refOf (txId : option string) : TxRef :=
  match txId with
  | Some i => RefId i
  | None => RefObject None
  end.

(** A call raises nothing but an exception of a library. *)
Definition libraryFault {A} (r : result A) : Prop :=
  forall e, r = Raise e -> e = LibraryError.

(** The same of a method that runs a loop. *)
Definition libraryFaultOutcome {A} (o : outcome A) : Prop :=
  forall e, o = Throw e -> e = LibraryError.

Section ValidationVocabulary.
Context `{L : Lib}.

(** The hash of a block does not cover its [_id]: [findNonce] hashes the
    candidate before it sets the [_id], the validator hashes it after. *)
Definition blockHashIgnoresId : Prop :=
  forall b i, getBlockHash (Block.set_id i b) = getBlockHash b.

(** The exceptions of the libraries are their own: none is a
    [ValidationError] or a [ClientError]. *)
Record PlainLibrary : Prop := {
  plain_mnemonicToSeed : forall m, libraryFault (mnemonicToSeed m);
  plain_fromMasterSeed : forall s, libraryFault (fromMasterSeed s);
  plain_derive : forall k p, libraryFault (derive k p);
  plain_fromExtendedKey : forall k, libraryFault (fromExtendedKey k);
  plain_deriveChild : forall k i, libraryFault (deriveChild k i);
  plain_privateExtendedKey : forall k, libraryFault (privateExtendedKey k);
  plain_hd_sign : forall k m, libraryFault (hd_sign k m);
  plain_hd_verify : forall k m s, libraryFault (hd_verify k m s);
  plain_base58_decode_checked : forall s, libraryFault (base58_decode_checked s)
}.

(** What [addTransaction] checks of a transaction against a store, in the
    order of its checks: as many signatures as inputs; no input twice, each
    with a record under whose address the signature at its position
    verifies; no output address twice and every amount positive; the inputs
    cover the outputs. *)
Definition acceptable (db : Db) (tx : Tx.t) : Prop :=
  length (Tx.utxoIns tx) = length (Tx.signatures tx)
  /\ NoDup (Tx.utxoIns tx)
  /\ inputsVerify db (signedMessage tx) (Tx.utxoIns tx) (Tx.signatures tx)
  /\ NoDup (map Out.address (Tx.utxoOuts tx))
  /\ Forall (fun o => 0 < Out.amount o) (Tx.utxoOuts tx)
  /\ outputTotal (Tx.utxoOuts tx) <= inputTotal db (Tx.utxoIns tx).

(** What [addBlock] checks of a block, a coinbase and a list of references
    against a store: the difficulty prefix of the hash; a stored block under
    the [previous] id, when there is one; every reference resolved; the root
    recomputed from the coinbase and the resolved transactions; the shape of
    the coinbase. *)
Definition acceptableBlock (this : Server.t) (db : Db) (block : Block.t)
    (coinbase : Tx.t) (transactions : list TxRef) : Prop :=
  startsWith (getBlockHash block) (repeat1 (Server.difficulty this)) = true
  /\ (truthy (Block.previous block) = true ->
      is_Some (Store.getBlock db (default "" (Block.previous block))))
  /\ exists fetched,
       resolved db transactions fetched
       /\ Block.root block = recomputedRoot coinbase fetched
       /\ wellFormedCoinbase (Server.amount this) coinbase.

(** The pooled transactions carry their hash as [_id], and the store finds
    each of them under it. *)
Definition poolKeyed (db : Db) : Prop :=
  Forall (fun tx => Tx._id tx = Some (getTransactionHash tx)
                    /\ Store.getTransaction db (Tx._id tx) = Some tx)
         (pool db).
End ValidationVocabulary.

Arguments plain_mnemonicToSeed {L}.
Arguments plain_fromMasterSeed {L}.
Arguments plain_derive {L}.
Arguments plain_fromExtendedKey {L}.
Arguments plain_deriveChild {L}.
Arguments plain_privateExtendedKey {L}.
Arguments plain_hd_sign {L}.
Arguments plain_hd_verify {L}.
Arguments plain_base58_decode_checked {L}.

(** A selection as the loop of [createTransaction] leaves it, whatever the
    libraries are: the inputs are the addresses of the selected records and
    the total is the sum of their amounts; every selected record is the one
    the store keeps under its address, unspent and confirmed; and the
    records selected before the last one did not reach the amount. *)
Definition selectionSound (db : Db) (amount : Z) (sel : Selection) : Prop :=
  utxoIns sel = map (fun s => Utxo.address (utxo s)) (selectedUtxos sel)
  /\ total sel = sumAmounts (map utxo (selectedUtxos sel))
  /\ Forall (fun s => Store.getUtxo db (Utxo.address (utxo s)) = Some (utxo s)
                      /\ spendable (utxo s) = true)
            (selectedUtxos sel)
  /\ forall earlier last, selectedUtxos sel = earlier ++ [last] ->
       sumAmounts (map utxo earlier) < amount.

(** * A small instance of the libraries, and a ledger

    The instance below is used to run the embedding on concrete ledgers.
    Its keys are readable strings over the base58 alphabet: an extended key
    is ["S"] (private) or ["P"] (public) followed by the derivation trail;
    a signature is the signer's public key followed by the message. *)

Module Toy.
Record key : Type := mkKey { secret : bool; trail : string }.

Definition bytes_of_string (s : string) : bytes :=
  map byte_of_ascii (list_ascii_of_string s).
Definition string_of_bytes (b : bytes) : string :=
  string_of_list_ascii (map ascii_of_byte b).

(** Characters outside the base58 alphabet are replaced by ["z"]. *)
Fixpoint sanitize (s : string) : string :=
  match s with
  | EmptyString => EmptyString
  | String c rest => String (if in_alphabet c then c else "z"%char) (sanitize rest)
  end.

Fixpoint unary (n : nat) : string :=
  match n with
  | O => "x"
  | S m => String "i" (unary m)
  end.

Definition parse (s : string) : result key :=
  match s with
  | String c rest =>
      if forallb in_alphabet (list_ascii_of_string rest) then
        if Ascii.eqb c "S" then Ok (mkKey true rest)
        else if Ascii.eqb c "P" then Ok (mkKey false rest)
        else Raise LibraryError
      else Raise LibraryError
  | EmptyString => Raise LibraryError
  end.

Definition public (k : key) : string := String "P" (trail k).

Definition showOut (o : Out.t) : string :=
  Out.address o +:+ "a" +:+ pretty (Out.amount o).

Definition showId (i : option string) : string :=
  match i with Some s => s | None => "n" end.

Definition txHash (tx : Tx.t) : string :=
  String "T" (sanitize (String.concat "i" (Tx.utxoIns tx) +:+ "o"
                        +:+ String.concat "o" (map showOut (Tx.utxoOuts tx)) +:+ "s"
                        +:+ String.concat "s" (Tx.signatures tx))).

(** The proof of work of the instance: the nonce ["3"] gives a hash with
    four leading ["1"], every other nonce a hash that starts with ["2"]. *)
Definition blockHash (b : Block.t) : string :=
  (if bool_decide (Block.nonce b = Some "3") then "1111" else "2")
  +:+ sanitize (showId (Block.previous b) +:+ "r" +:+ Block.root b).

Definition merkle (ids : list (option string)) : string :=
  String "M" (sanitize (String.concat "m" (map showId ids))).

#[export] Instance lib : Lib := {|
  HDKey := key;
  mnemonicToSeed m := Ok (bytes_of_string m);
  fromMasterSeed seed := Ok (mkKey true (sanitize (string_of_bytes seed)));
  derive k path := Ok (mkKey (secret k) (sanitize path +:+ trail k));
  fromExtendedKey := parse;
  deriveChild k i := Ok (mkKey (secret k) (unary i +:+ trail k));
  hasPrivateKey := secret;
  privateExtendedKey k :=
    if secret k then Ok (String "S" (trail k)) else Raise LibraryError;
  publicExtendedKey := public;
  hd_sign k msg :=
    if secret k then Ok (bytes_of_string (public k) ++ msg) else Raise LibraryError;
  hd_verify k msg sig :=
    Ok (String.eqb (string_of_bytes sig)
                    (string_of_bytes (bytes_of_string (public k) ++ msg)));
  base58_decode_checked s := Ok (bytes_of_string s);
  base58_encode := string_of_bytes;
  getTransactionHash := txHash;
  getBlockHash := blockHash;
  getMerkleRoot := merkle
|}.

Definition mnemonic : string := "abandon".
Definition client : Client.t := DotcoinClient (Config.mk (Some mnemonic) None None None) "".
Definition server : Server.t := DotcoinServer (Config.mk None None None None).
End Toy.

(** A ledger to run the instance on: one confirmed output of 150 at the
    first receive address of account 0. *)
Module Ledger.
Import Toy.

Definition receive0 : string := "Pxmz44zz1zzzzz1abandon".
Definition genesis : Db :=
  mkDb (<[receive0 := Utxo.mk receive0 150 (Some "1111g") None]> ∅) [] [].

(** The public key of somebody else's wallet. *)
Definition recipient : string := "Pbob".

(** What a method of the server leaves in the store, or the store as it was
    when the method did not return. *)
Definition after {A} (m : M A) (db : Db) : Db := snd (m db).

Definition orElse {A} (o : outcome A) (d : A) : A :=
  match o with Ret a => a | _ => d end.

Definition noTx : Tx.t := Tx.mk None [] [] [] None.
Definition noMined : Mined.t := Mined.mk (Block.mk None None "" None) noTx [].

(** Paying 100 out of the 150. *)
Definition payment : Tx.t := Eval vm_compute in
  orElse (createTransaction client genesis 4 0 recipient 100) noTx.
Definition pooled : Db := Eval vm_compute in after (addTransaction payment) genesis.

(** A second payment out of the same 150, built before the first one was
    submitted. *)
Definition secondPayment : Tx.t := Eval vm_compute in
  orElse (createTransaction client genesis 4 0 recipient 120) noTx.

(** Mining the pooled payment. *)
Definition mined : Mined.t := Eval vm_compute in orElse (mine client pooled 4 0) noMined.
Definition refs : list TxRef := Eval vm_compute in map RefObject (Mined.transactions mined).
Definition confirmed : Db := Eval vm_compute in
  after (addBlock server (Mined.block mined) (Mined.coinbase mined) refs) pooled.

(** A candidate that was never sealed, one with a root of its own, and a
    coinbase that pays 99. *)
Definition unsealed : Block.t := Eval vm_compute in
  Block.set_nonce (Some "7") (Mined.block mined).
Definition wrongRoot : Block.t :=
  Block.mk None None "Mwrong" (Some "3").
Definition greedyCoinbase : Tx.t :=
  Tx.mk None [] [Out.mk "Pixmz44zz1zzzzz1abandon" 99] [] None.

(** A configuration for blocks of one transaction, coinbase included. *)
Definition oneTransaction : Config.t :=
  Config.mk (Some mnemonic) None (Some 1%nat) None.

(** The trails of the two parent keys of account 0. *)
Definition toyTrail (t : chain) : string :=
  match t with
  | receive => "mz44zz1zzzzz1abandon"
  | change => "mz44zz1zzzzzzabandon"
  end.

(** The records of account 0 at a child index, or none when the
    derivation raises. *)
Definition recordsOf (db : Db) (index : nat) : list Utxo.t :=
  match recordsAt client db 0 index with Ok l => l | Raise _ => [] end.



End Ledger.

(** Further ledgers and transactions of the instance. *)
Module Scenes.
Import Toy.

(** The second receive address of account 0. *)
Definition receive1 : string := "Pixmz44zz1zzzzz1abandon".

(** A store without a record. *)
Definition empty : Db := mkDb ∅ [] [].

(** Two confirmed outputs, 60 at the first receive address and 70 at the
    second; paying 100 takes both. *)
Definition twoCoins : Db :=
  mkDb (<[Ledger.receive0 := Utxo.mk Ledger.receive0 60 (Some "1111g") None]>
          (<[receive1 := Utxo.mk receive1 70 (Some "1111g") None]> ∅)) [] [].
Definition bothSpent : Tx.t := Eval vm_compute in
  Ledger.orElse (createTransaction client twoCoins 4 0 Ledger.recipient 100) Ledger.noTx.

(** One confirmed output of 70, at the second receive address only. *)
Definition hidden : Db :=
  mkDb (<[receive1 := Utxo.mk receive1 70 (Some "1111g") None]> ∅) [] [].
Definition hiddenRecords : list Utxo.t := Eval vm_compute in Ledger.recordsOf hidden 1.

(** A transaction whose input nobody holds. *)
Definition forged : Tx.t :=
  Tx.mk (Some "Tforged") ["Pnobody"] [Out.mk Ledger.recipient 10] ["Pnobody"] None.

(** The payment with a signature that is not base58. *)
Definition garbled : Tx.t := Eval vm_compute in Tx.set_signatures ["0O"] Ledger.payment.

(** Asking for a negative amount. *)
Definition refund : Tx.t := Eval vm_compute in
  Ledger.orElse (createTransaction client Ledger.genesis 4 0 Ledger.recipient (-5)) Ledger.noTx.

(** A configuration that asks for no proof of work and no reward. *)
Definition zeros : Config.t := Config.mk None (Some 0%nat) None (Some 0).



(** Signing a transaction that spends the 150 of the ledger. *)
Definition signed (unsigned : Tx.t) : Tx.t :=
  match signInputs client 0 (getTransactionHash unsigned)
          [mkSelected (Utxo.mk Ledger.receive0 150 (Some "1111g") None) 0 receive] with
  | Ok signatures => Tx.set_signatures signatures unsigned
  | Raise _ => unsigned
  end.

(** Paying 100 out of the 150 and leaving the rest to nobody; paying 200
    out of the 150. *)
Definition surplus : Tx.t := Eval vm_compute in
  signed (Tx.mk None [Ledger.receive0] [Out.mk Ledger.recipient 100] [] None).
Definition overdraft : Tx.t := Eval vm_compute in
  signed (Tx.mk None [Ledger.receive0] [Out.mk Ledger.recipient 200] [] None).

(** Amounts at the edge of the integers that doubles hold exactly. *)
Definition edge : Z := 2 ^ 53.
End Scenes.

(** * Properties *)

(** ** Strings: the difficulty prefix *)

Lemma prefix_append (p rest : string) : String.prefix p (p +:+ rest) = true.
Proof.
  induction p as [|c p IH]; simpl.
  - destruct rest; reflexivity.
  - destruct (ascii_dec c c) as [_|Hne]; [exact IH | congruence].
Qed.

Lemma prefix_split (p s : string) :
  String.prefix p s = true -> exists rest, s = p +:+ rest.
Proof.
  revert s. induction p as [|c p IH]; intros s H.
  - exists s. reflexivity.
  - destruct s as [|d s]; simpl in H; [discriminate|].
    destruct (ascii_dec c d) as [->|_]; [|discriminate].
    destruct (IH s H) as [rest ->]. exists rest. reflexivity.
Qed.

Lemma startsWith_spec (s p : string) :
  startsWith s p = true <-> exists rest, s = p +:+ rest.
Proof.
  unfold startsWith. split.
  - apply prefix_split.
  - intros [rest ->]. apply prefix_append.
Qed.

(** ** The state monad of the server *)

Lemma readonly_mret {A} (a : A) : readonly (mret a).
Proof. intros db. reflexivity. Qed.

Lemma readonly_mthrow {A} (e : error) : readonly (@mthrow A e).
Proof. intros db. reflexivity. Qed.

Lemma readonly_lift {A} (o : result A) : readonly (lift o).
Proof. intros db. reflexivity. Qed.

Lemma readonly_reading {A} (f : Db -> A) : readonly (reading f).
Proof. intros db. reflexivity. Qed.

Lemma readonly_mbind {A B} (m : M A) (k : A -> M B) :
  readonly m -> (forall a, readonly (k a)) -> readonly (mbind m k).
Proof.
  intros Hm Hk db. unfold mbind. specialize (Hm db).
  destruct (m db) as [[a|] db1]; simpl in *; subst; auto.
  apply Hk.
Qed.

Lemma readonly_run {A} (m : M A) (db db' : Db) (o : result A) :
  readonly m -> m db = (o, db') -> db' = db.
Proof. intros Hm H. specialize (Hm db). rewrite H in Hm. exact Hm. Qed.

Create HintDb readonly.

#[local] Hint Resolve readonly_mret readonly_mthrow readonly_lift
  readonly_reading readonly_mbind : readonly.

Section ServerFacts.
Context `{L : Lib}.

Lemma readonly_checkInputs txParams txHash seen ins :
  readonly (checkInputs txParams txHash seen ins).
Proof.
  revert seen. induction ins as [|a ins IH]; intros seen; simpl.
  - auto with readonly.
  - case_bool_decide; [apply readonly_mthrow|].
    apply readonly_mbind; [auto with readonly|]. intros [u|]; [|apply readonly_mthrow].
    apply readonly_mbind; [auto with readonly|]. intros b.
    destruct b; simpl; [apply IH | apply readonly_mthrow].
Qed.

Lemma readonly_checkOutputs seen outs : readonly (checkOutputs seen outs).
Proof.
  revert seen. induction outs as [|o outs IH]; intros seen; simpl.
  - auto with readonly.
  - case_bool_decide; [apply readonly_mthrow|].
    destruct (Out.amount o <=? 0); [apply readonly_mthrow | apply IH].
Qed.

Lemma readonly_sumInputs acc ins : readonly (sumInputs acc ins).
Proof.
  revert acc. induction ins as [|a ins IH]; intros acc; simpl.
  - auto with readonly.
  - apply readonly_mbind; [auto with readonly|]. intros [u|]; apply IH.
Qed.

Lemma readonly_fetchTransactions refs : readonly (fetchTransactions refs).
Proof.
  induction refs as [|r refs IH]; simpl.
  - auto with readonly.
  - apply readonly_mbind; [auto with readonly|]. intros [tx|]; [|apply readonly_mthrow].
    apply readonly_mbind; [exact IH|]. auto with readonly.
Qed.

(** The fourth loop spends the inputs one by one, which is to spend the
    list. *)
Lemma spendInputs_run txId ins db :
  spendInputs txId ins db = (Ok tt, Store.spendUtxos txId ins db).
Proof.
  revert db. induction ins as [|a ins IH]; intros db; simpl.
  - destruct db; reflexivity.
  - unfold mbind, writing. rewrite IH. reflexivity.
Qed.

(** What the transactions fetched by [addBlock] are. *)
Lemma fetchTransactions_Ret refs db fetched db' :
  fetchTransactions refs db = (Ok fetched, db') ->
  Forall2 (fun r tx => Store.getTransaction db (refId r) = Some tx) refs fetched.
Proof.
  revert fetched db'. induction refs as [|r refs IH]; intros fetched db' H; simpl in H.
  - inversion H; subst. constructor.
  - unfold mbind, reading in H.
    destruct (Store.getTransaction db (refId r)) as [tx|] eqn:Hr; [|discriminate].
    destruct (fetchTransactions refs db) as [[l|] db1] eqn:Hrest; try discriminate.
    inversion H; subst. constructor; [exact Hr | eapply IH; reflexivity].
Qed.

Lemma fetchTransactions_outcome refs db :
  (exists fetched, fetchTransactions refs db = (Ok fetched, db)) \/
  (exists txId, fetchTransactions refs db
                = (Raise (ValidationError (TransactionMissing txId)), db)).
Proof.
  induction refs as [|r refs IH]; simpl.
  - left. eexists. reflexivity.
  - unfold mbind, reading.
    destruct (Store.getTransaction db (refId r)) as [tx|]; [|right; eexists; reflexivity].
    destruct IH as [[l ->]|[i ->]]; [left|right]; eexists; reflexivity.
Qed.
End ServerFacts.

(** ** [addBlock]: what an accepted block went through *)

Section AddBlockFacts.
Context `{L : Lib}.
Variable this : Server.t.

Lemma addBlock_accepted block coinbase transactions db db' :
  addBlock this block coinbase transactions db = (Ok tt, db') ->
  startsWith (getBlockHash block) (repeat1 (Server.difficulty this)) = true
  /\ (exists fetched,
        fetchTransactions transactions db = (Ok fetched, db)
        /\ Block.root block
           = getMerkleRoot (Some (getTransactionHash coinbase)
                            :: map Some (map getTransactionHash fetched)))
  /\ badCoinbase this coinbase = false
  /\ db' = blockCommitted block coinbase transactions db.
Proof.
  unfold addBlock. intros H.
  destruct (startsWith _ _) eqn:Hpre; simpl in H; [|discriminate].
  unfold mbind at 1 in H.
  match type of H with
  | context [match ?m db with _ => _ end] => destruct (m db) as [[[]|] db1] eqn:Hprev
  end; try discriminate.
  assert (db1 = db) as ->.
  { destruct (truthy (Block.previous block)); [|inversion Hprev; reflexivity].
    unfold mbind, reading in Hprev.
    destruct (Store.getBlock db _); [|discriminate].
    destruct (negb _); inversion Hprev; reflexivity. }
  unfold mbind at 1 in H.
  destruct (fetchTransactions transactions db) as [[fetched|] db2] eqn:Hf;
    try discriminate.
  pose proof (readonly_run _ _ _ _ (readonly_fetchTransactions _) Hf) as ->.
  destruct (String.eqb (Block.root block) _) eqn:Hroot; simpl in H; [|discriminate].
  destruct (badCoinbase this coinbase) eqn:Hcb; [discriminate|].
  unfold mbind, writing in H. inversion H; subst.
  apply String.eqb_eq in Hroot.
  repeat split; eauto.
Qed.

(** A rejected block leaves the store as it was, and the exception is a
    [ValidationError]. *)
Lemma addBlock_rejected block coinbase transactions db o db' :
  addBlock this block coinbase transactions db = (o, db') ->
  o = Ok tt \/ (db' = db /\ exists why, o = Raise (ValidationError why)).
Proof.
  unfold addBlock. intros H.
  destruct (startsWith _ _); simpl in H;
    [|inversion H; right; split; [reflexivity | eexists; reflexivity]].
  unfold mbind at 1 in H.
  match type of H with
  | context [match ?m db with _ => _ end] =>
      assert (m db = (Ok tt, db) \/
              exists why, m db = (Raise (ValidationError why), db)) as Hprev
  end.
  { destruct (truthy (Block.previous block)); [|left; reflexivity].
    unfold mbind, reading.
    destruct (Store.getBlock db _); [|right; eexists; reflexivity].
    destruct (negb _); [right; eexists; reflexivity | left; reflexivity]. }
  destruct Hprev as [Hprev | [why Hprev]]; rewrite Hprev in H;
    [|inversion H; right; split; [reflexivity | eexists; reflexivity]].
  unfold mbind at 1 in H.
  destruct (fetchTransactions_outcome transactions db) as [[fetched Hf]|[i Hf]];
    rewrite Hf in H;
    [|inversion H; right; split; [reflexivity | eexists; reflexivity]].
  destruct (negb (String.eqb _ _));
    [inversion H; right; split; [reflexivity | eexists; reflexivity]|].
  destruct (badCoinbase this coinbase);
    [inversion H; right; split; [reflexivity | eexists; reflexivity]|].
  unfold mbind, writing in H. inversion H. left. reflexivity.
Qed.

Lemma addBlock_bad_difficulty block coinbase transactions db :
  startsWith (getBlockHash block) (repeat1 (Server.difficulty this)) = false ->
  addBlock this block coinbase transactions db
  = (Raise (ValidationError BadDifficulty), db).
Proof. intros H. unfold addBlock. rewrite H. reflexivity. Qed.

(** A block that is not accepted is rejected with a [ValidationError], the
    store untouched. *)
Lemma addBlock_not_accepted block coinbase transactions db :
  (forall db', addBlock this block coinbase transactions db <> (Ok tt, db')) ->
  exists why,
    addBlock this block coinbase transactions db = (Raise (ValidationError why), db).
Proof.
  intros Hno.
  destruct (addBlock this block coinbase transactions db) as [o db'] eqn:H.
  destruct (addBlock_rejected _ _ _ _ _ _ H) as [-> | [-> [why ->]]].
  - exfalso. exact (Hno db' eq_refl).
  - exists why. reflexivity.
Qed.
End AddBlockFacts.

(** ** The nonce search *)

Section NonceFacts.
Context `{L : Lib}.

Lemma withNonce_again block m n : withNonce (withNonce block m) n = withNonce block n.
Proof. reflexivity. Qed.

Lemma findNonce_from_Ret fuel nonce block prefix b :
  findNonce_from fuel nonce block prefix = Ret b ->
  exists k, (nonce <= k < nonce + fuel)%nat
    /\ b = Block.set_id (Some (getBlockHash (withNonce block k))) (withNonce block k)
    /\ startsWith (getBlockHash (withNonce block k)) prefix = true
    /\ forall j, (nonce <= j < k)%nat ->
         startsWith (getBlockHash (withNonce block j)) prefix = false.
Proof.
  revert nonce block. induction fuel as [|fuel IH]; intros nonce block H; simpl in H.
  - discriminate.
  - fold (withNonce block nonce) in H.
    destruct (startsWith (getBlockHash (withNonce block nonce)) prefix) eqn:Hp.
    + inversion H; subst. exists nonce. repeat split; try lia; auto.
    + apply IH in H. destruct H as (k & Hk & -> & Hok & Hbefore).
      exists k. rewrite !withNonce_again in *. repeat split; try lia; auto.
      intros j Hj. destruct (Nat.eq_dec j nonce) as [->|Hne]; [exact Hp|].
      specialize (Hbefore j). rewrite withNonce_again in Hbefore.
      apply Hbefore. lia.
Qed.

(** The search ends as soon as some nonce gives a hash with the prefix. *)
Lemma findNonce_from_found fuel nonce block prefix k :
  (nonce <= k)%nat -> (k - nonce < fuel)%nat ->
  startsWith (getBlockHash (withNonce block k)) prefix = true ->
  exists b, findNonce_from fuel nonce block prefix = Ret b.
Proof.
  revert nonce block. induction fuel as [|fuel IH]; intros nonce block Hle Hf Hk.
  - lia.
  - simpl. fold (withNonce block nonce).
    destruct (startsWith (getBlockHash (withNonce block nonce)) prefix) eqn:Hp.
    + eexists. reflexivity.
    + assert (k <> nonce) by (intros ->; congruence).
      apply IH; [lia | lia |]. rewrite withNonce_again. exact Hk.
Qed.

Lemma findNonce_prefix fuel block difficulty b :
  findNonce fuel block difficulty = Ret b ->
  exists blockId, Block._id b = Some blockId
    /\ startsWith blockId (repeat1 difficulty) = true.
Proof.
  unfold findNonce. intros H. apply findNonce_from_Ret in H.
  destruct H as (k & _ & -> & Hok & _). eexists. split; [reflexivity | exact Hok].
Qed.
End NonceFacts.

(** ** The next unused address *)

Section NextUnusedFacts.
Context `{L : Lib}.
Variable db : Db.

Lemma nextUnused_Ret fuel parentKey from a :
  nextUnused db fuel parentKey from = Ret a ->
  exists i, (from <= i < from + fuel)%nat
    /\ childAddress parentKey i = Ok a
    /\ Store.getUtxo db a = None
    /\ allUsed db parentKey from i.
Proof.
  revert from. induction fuel as [|fuel IH]; intros from H; simpl in H.
  - discriminate.
  - destruct (getChildKeys parentKey from) as [keys|] eqn:Hk; simpl in H;
      try discriminate.
    destruct (Store.getUtxo db (publicKey keys)) as [u|] eqn:Hu.
    + apply IH in H. destruct H as (i & Hi & Hc & Hnone & Hused).
      exists i. repeat split; try lia; auto.
      intros j Hj. destruct (Nat.eq_dec j from) as [->|Hne].
      * exists (publicKey keys). unfold childAddress. rewrite Hk. simpl.
        split; [reflexivity | rewrite Hu; eauto].
      * apply Hused. lia.
    + inversion H; subst. exists from. repeat split; try lia; auto.
      * unfold childAddress. rewrite Hk. reflexivity.
      * intros j Hj. lia.
Qed.

Lemma nextUnused_found fuel parentKey from i a :
  (from <= i)%nat -> (i - from < fuel)%nat ->
  childAddress parentKey i = Ok a ->
  Store.getUtxo db a = None ->
  allUsed db parentKey from i ->
  nextUnused db fuel parentKey from = Ret a.
Proof.
  revert from. induction fuel as [|fuel IH]; intros from Hle Hf Hc Hnone Hused.
  - lia.
  - simpl. destruct (Nat.eq_dec i from) as [->|Hne].
    + unfold childAddress in Hc.
      destruct (getChildKeys parentKey from) as [keys|]; simpl in *;
        try discriminate.
      inversion Hc; subst. rewrite Hnone. reflexivity.
    + destruct (Hused from) as (a0 & Hc0 & [u Hu]); [lia|].
      unfold childAddress in Hc0.
      destruct (getChildKeys parentKey from) as [keys|]; simpl in *;
        try discriminate.
      inversion Hc0; subst. rewrite Hu.
      apply IH; auto; try lia.
      intros j Hj. apply Hused. lia.
Qed.
End NextUnusedFacts.

(** The loop ends: when every child index derives an address and no two
    indices derive the same one, some index within the size of the store
    has no record, and the loop returns the first such. *)
Section NextUnusedEnds.
Context `{L : Lib}.
Variable db : Db.
Variable parentKey : string.
Variable derived : nat -> string.
Hypothesis derives : forall i, childAddress parentKey i = Ok (derived i).
Hypothesis distinct : forall i j, derived i = derived j -> i = j.

Lemma some_unused :
  exists i, (i <= size (utxos db))%nat /\ Store.getUtxo db (derived i) = None.
Proof.
  set (n := size (utxos db)).
  destruct (decide (Forall (fun i => is_Some (utxos db !! derived i)) (seq 0 (S n))))
    as [Hall|Hnot].
  - exfalso.
    assert (Hnodup : NoDup (derived <$> seq 0 (S n))).
    { apply NoDup_fmap_2_strong; [|apply NoDup_seq].
      intros i j _ _. apply distinct. }
    assert (Hsub : (list_to_set (derived <$> seq 0 (S n)) : gset string)
                   ⊆ dom (utxos db)).
    { intros a Ha. apply elem_of_list_to_set in Ha.
      apply list_elem_of_fmap in Ha. destruct Ha as (i & -> & Hi).
      apply elem_of_dom. rewrite Forall_forall in Hall. apply Hall. exact Hi. }
    apply subseteq_size in Hsub.
    rewrite size_list_to_set in Hsub by exact Hnodup.
    rewrite length_fmap, length_seq, size_dom in Hsub. unfold n in Hsub. lia.
  - apply not_Forall_Exists in Hnot; [|intros i; apply _].
    apply Exists_exists in Hnot. destruct Hnot as (i & Hi & Hnone).
    exists i. split.
    + apply elem_of_seq in Hi. unfold n in Hi. lia.
    + unfold Store.getUtxo. destruct (utxos db !! derived i) eqn:E; [|reflexivity].
      exfalso. apply Hnone. eauto.
Qed.

Lemma first_unused :
  exists i, (i <= size (utxos db))%nat
    /\ Store.getUtxo db (derived i) = None
    /\ allUsed db parentKey 0 i.
Proof.
  destruct some_unused as (n & Hn & Hnone).
  assert (Hleast : forall m,
             (exists i, (i <= m)%nat /\ Store.getUtxo db (derived i) = None
                        /\ allUsed db parentKey 0 i)
             \/ allUsed db parentKey 0 (S m)).
  { induction m as [|m IH].
    - destruct (Store.getUtxo db (derived 0)) as [u|] eqn:E.
      + right. intros j Hj. assert (j = 0%nat) as -> by lia.
        exists (derived 0). rewrite derives, E. eauto.
      + left. exists 0%nat. repeat split; auto. intros j Hj. lia.
    - destruct IH as [(i & Hi & Hi' & Hused)|Hused].
      + left. exists i. repeat split; auto.
      + destruct (Store.getUtxo db (derived (S m))) as [u|] eqn:E.
        * right. intros j Hj. destruct (decide (j = S m)) as [->|Hne].
          -- exists (derived (S m)). rewrite derives, E. eauto.
          -- apply Hused. lia.
        * left. exists (S m). repeat split; auto. }
  destruct (Hleast n) as [(i & Hi & Hi' & Hused)|Hused].
  - exists i. repeat split; auto. lia.
  - exfalso. destruct (Hused n) as (a & Ha & [u Hu]); [lia|].
    rewrite derives in Ha. inversion Ha; subst. congruence.
Qed.

Lemma nextUnused_ends fuel :
  (size (utxos db) < fuel)%nat ->
  exists a, nextUnused db fuel parentKey 0 = Ret a.
Proof.
  intros Hfuel. destruct first_unused as (i & Hi & Hnone & Hused).
  exists (derived i).
  apply (nextUnused_found db fuel parentKey 0%nat i); auto; lia.
Qed.
End NextUnusedEnds.

(** ** The miner *)

Section MineFacts.
Context `{L : Lib}.
Variable this : Client.t.
Variable db : Db.

Lemma mine_Ret fuel account r :
  mine this db fuel account = Ret r ->
  exists parent a k,
    getReceiveKeys (Client.mnemonic this) account = Ok parent
    /\ nextUnused db fuel (publicKey parent) 0 = Ret a
    /\ (let coinbase := Tx.mk None [] [Out.mk a (Client.amount this)] [] None in
        Mined.coinbase r = Tx.set_id (Some (getTransactionHash coinbase)) coinbase)
    /\ Mined.transactions r = map Tx._id (pool db)
    /\ (let candidate :=
          withNonce
            (Block.mk None (tip db)
               (getMerkleRoot (Tx._id (Mined.coinbase r) :: Mined.transactions r)) None) k in
        startsWith (getBlockHash candidate) (repeat1 (Client.difficulty this)) = true
        /\ Mined.block r
           = Block.set_id (Some (getBlockHash (Block.set_id (Some (getBlockHash candidate))
                                                            candidate)))
                          candidate).
Proof.
  unfold mine. intros H.
  destruct (getReceiveKeys _ _) as [parent|] eqn:Hp; simpl in H; try discriminate.
  destruct (nextUnused _ _ _ _) as [a| |] eqn:Ha; simpl in H; try discriminate.
  destruct (findNonce _ _ _) as [b| |] eqn:Hb; simpl in H; try discriminate.
  inversion H; subst; clear H. simpl.
  unfold findNonce in Hb. apply findNonce_from_Ret in Hb.
  destruct Hb as (k & _ & -> & Hok & _).
  exists parent, a, k. repeat split; auto.
Qed.
End MineFacts.

(** ** Blocks: Merkle root, difficulty, coinbase *)

Section BlockClaims.
Context `{L : Lib}.




(** C4. Every block accepted by [addBlock] has a recomputed hash that starts
    with the character 1 repeated [difficulty] times, and a block whose hash
    lacks the prefix is rejected; with difficulty 2 a hash that starts with
    11 passes and one that starts with 10 does not; and every block
    [findNonce] returns has an [_id] with the prefix. *)
Theorem difficulty_prefix :
  (forall this block coinbase transactions db db',
      addBlock this block coinbase transactions db = (Ok tt, db') ->
      exists rest,
        getBlockHash block = repeat1 (Server.difficulty this) +:+ rest)
  /\ (forall this block coinbase transactions db,
      startsWith (getBlockHash block) (repeat1 (Server.difficulty this)) = false ->
      addBlock this block coinbase transactions db
      = (Raise (ValidationError BadDifficulty), db))
  /\ (forall rest,
      startsWith ("11" +:+ rest) (repeat1 2) = true
      /\ startsWith ("10" +:+ rest) (repeat1 2) = false)
  /\ (forall fuel block difficulty b,
      findNonce fuel block difficulty = Ret b ->
      exists blockId rest,
        Block._id b = Some blockId /\ blockId = repeat1 difficulty +:+ rest).
Proof.
  split; [|split; [|split]].
  - intros this block coinbase transactions db db' H.
    apply addBlock_accepted in H. destruct H as (Hp & _).
    apply startsWith_spec. exact Hp.
  - intros. apply addBlock_bad_difficulty. assumption.
  - intros rest. split; [|reflexivity].
    apply startsWith_spec. exists rest. reflexivity.
  - intros fuel block difficulty b H. apply findNonce_prefix in H.
    destruct H as (blockId & Hid & Hp). apply startsWith_spec in Hp.
    destruct Hp as [rest Hrest]. exists blockId, rest. auto.
Qed.

Lemma badCoinbase_false this coinbase :
  badCoinbase this coinbase = false <->
  wellFormedCoinbase (Server.amount this) coinbase.
Proof.
  unfold badCoinbase, wellFormedCoinbase.
  destruct coinbase as [i ins outs sigs b]; simpl. split.
  - intros H. apply orb_false_iff in H. destruct H as [H H3].
    apply orb_false_iff in H. destruct H as [H1 H2].
    destruct ins; [|discriminate].
    destruct outs as [|[a v] [|]]; try discriminate.
    simpl in H3. apply negb_false_iff, Z.eqb_eq in H3. subst.
    split; [reflexivity | eexists; reflexivity].
  - intros [-> [a ->]]. simpl. rewrite Z.eqb_refl. reflexivity.
Qed.

(** C6. [addBlock] rejects any block whose coinbase has an input, or a
    number of outputs other than one, or a single output whose amount is not
    the reward of the server; the coinbase [mine] builds has no input and
    one output, whose amount is the reward of the client, so that a server
    configured like the client finds nothing wrong with it. *)
Theorem coinbase_rule :
  (forall this block coinbase transactions db,
      (Tx.utxoIns coinbase <> []
       \/ length (Tx.utxoOuts coinbase) <> 1%nat
       \/ exists o, Tx.utxoOuts coinbase = [o] /\ Out.amount o <> Server.amount this) ->
      exists why, addBlock this block coinbase transactions db
                  = (Raise (ValidationError why), db))
  /\ (forall this db fuel account r,
      mine this db fuel account = Ret r ->
      wellFormedCoinbase (Client.amount this) (Mined.coinbase r))
  /\ (forall config generated db fuel account r,
      mine (DotcoinClient config generated) db fuel account = Ret r ->
      badCoinbase (DotcoinServer config) (Mined.coinbase r) = false).
Proof.
  assert (Hmine : forall this db fuel account r,
             mine this db fuel account = Ret r ->
             wellFormedCoinbase (Client.amount this) (Mined.coinbase r)).
  { intros this db fuel account r H. apply mine_Ret in H.
    destruct H as (parent & a & k & _ & _ & Hcb & _). simpl in Hcb.
    rewrite Hcb. split; [reflexivity | eexists; reflexivity]. }
  split; [|split].
  - intros this block coinbase transactions db Hbad.
    apply addBlock_not_accepted. intros db' Hacc.
    apply addBlock_accepted in Hacc. destruct Hacc as (_ & _ & Hcb & _).
    apply badCoinbase_false in Hcb. destruct Hcb as [Hins [a Houts]].
    destruct Hbad as [Hbad | [Hbad | (o & Ho & Hbad)]].
    + contradiction.
    + rewrite Houts in Hbad. simpl in Hbad. congruence.
    + rewrite Houts in Ho. inversion Ho; subst. simpl in Hbad. congruence.
  - exact Hmine.
  - intros config generated db fuel account r H. apply Hmine in H.
    apply badCoinbase_false. exact H.
Qed.
End BlockClaims.

(** *** The block claims on the ledger of the instance *)

Section BlockClaimsOnLedger.
#[local] Existing Instance Toy.lib.


Lemma difficulty_prefix_witness :
  (exists rest, getBlockHash (Mined.block Ledger.mined)
                = repeat1 (Server.difficulty Toy.server) +:+ rest)
  /\ addBlock Toy.server Ledger.unsealed (Mined.coinbase Ledger.mined) Ledger.refs Ledger.pooled
     = (Raise (ValidationError BadDifficulty), Ledger.pooled)
  /\ (exists blockId rest,
        Block._id (Mined.block Ledger.mined) = Some blockId
        /\ blockId = repeat1 1 +:+ rest).
Proof.
  destruct (@difficulty_prefix Toy.lib) as (Haccepted & Hrejected & _ & Hfound).
  split; [|split].
  - apply (Haccepted Toy.server _ (Mined.coinbase Ledger.mined) Ledger.refs
             Ledger.pooled Ledger.confirmed).
    vm_compute. reflexivity.
  - apply Hrejected. vm_compute. reflexivity.
  - apply (Hfound 4%nat
             (Block.mk None None (Block.root (Mined.block Ledger.mined)) None)).
    vm_compute. reflexivity.
Defined.

Lemma coinbase_rule_witness :
  (exists why,
     addBlock Toy.server (Mined.block Ledger.mined) Ledger.greedyCoinbase Ledger.refs
              Ledger.pooled
     = (Raise (ValidationError why), Ledger.pooled))
  /\ wellFormedCoinbase 100 (Mined.coinbase Ledger.mined)
  /\ badCoinbase Toy.server (Mined.coinbase Ledger.mined) = false.
Proof.
  destruct (@coinbase_rule Toy.lib) as (Hrejected & Hmine & Hsame).
  split; [|split].
  - apply Hrejected. right. right.
    exists (Out.mk "Pixmz44zz1zzzzz1abandon" 99). split; [reflexivity|].
    vm_compute. discriminate.
  - apply (Hmine Toy.client Ledger.pooled 4%nat 0%N Ledger.mined).
    vm_compute. reflexivity.
  - apply (Hsame (Config.mk (Some Toy.mnemonic) None None None) "" Ledger.pooled
             4%nat 0%N Ledger.mined).
    vm_compute. reflexivity.
Defined.
End BlockClaimsOnLedger.

(** ** [addTransaction] *)

Section AddTransactionFacts.
Context `{L : Lib}.

Lemma sumInputs_total acc ins db :
  sumInputs acc ins db = (Ok (acc + inputTotal db ins), db).
Proof.
  revert acc. induction ins as [|a ins IH]; intros acc; simpl.
  - unfold inputTotal. simpl. rewrite Z.add_0_r. reflexivity.
  - unfold mbind, reading. unfold inputTotal. simpl.
    destruct (Store.getUtxo db a) as [u|]; rewrite IH; unfold inputTotal; simpl;
      [|reflexivity].
    rewrite Z.add_assoc. reflexivity.
Qed.

Lemma sumOutputs_total outs : sumOutputs outs = outputTotal outs.
Proof.
  unfold sumOutputs, outputTotal.
  assert (H : forall acc, fold_left (fun sum o => sum + Out.amount o) outs acc
                          = acc + foldr Z.add 0 (map Out.amount outs)).
  { induction outs as [|o outs IH]; intros acc; simpl; [lia|]. rewrite IH. lia. }
  rewrite H. lia.
Qed.

Lemma addTransaction_checked tx db :
  length (Tx.utxoIns tx) = length (Tx.signatures tx) ->
  checkInputs tx (signedMessage tx) ∅ (Tx.utxoIns tx) db = (Ok tt, db) ->
  checkOutputs ∅ (Tx.utxoOuts tx) db = (Ok tt, db) ->
  addTransaction tx db =
  if inputTotal db (Tx.utxoIns tx) <? outputTotal (Tx.utxoOuts tx)
  then (Raise (ValidationError
                 (InsufficientInput (inputTotal db (Tx.utxoIns tx))
                                    (outputTotal (Tx.utxoOuts tx)))), db)
  else (Ok tt, pooledWith tx db).
Proof.
  intros Hlen Hins Houts. unfold addTransaction.
  rewrite Hlen, Nat.eqb_refl. simpl.
  fold (signedMessage tx). unfold mbind at 1. rewrite Hins.
  unfold mbind at 1. rewrite Houts.
  unfold mbind at 1. rewrite sumInputs_total, sumOutputs_total. simpl.
  destruct (_ <? _); [reflexivity|].
  unfold mbind, writing. rewrite spendInputs_run. reflexivity.
Qed.

(** Whatever makes [addTransaction] raise, it raises before it writes. *)
Lemma addTransaction_raise_unchanged tx db o db' :
  addTransaction tx db = (o, db') -> o <> Ok tt -> db' = db.
Proof.
  unfold addTransaction. intros H Hne.
  destruct (negb _); [inversion H; reflexivity|].
  unfold mbind at 1 in H.
  destruct (checkInputs _ _ _ _ db) as [o1 db1] eqn:H1.
  pose proof (readonly_run _ _ _ _ (readonly_checkInputs _ _ _ _) H1) as ->.
  destruct o1 as [[]|]; try (inversion H; reflexivity).
  unfold mbind at 1 in H.
  destruct (checkOutputs _ _ db) as [o2 db2] eqn:H2.
  pose proof (readonly_run _ _ _ _ (readonly_checkOutputs _ _) H2) as ->.
  destruct o2 as [[]|]; try (inversion H; reflexivity).
  unfold mbind at 1 in H. rewrite sumInputs_total in H.
  destruct (_ <? _); [inversion H; reflexivity|].
  unfold mbind, writing in H. rewrite spendInputs_run in H.
  inversion H; subst. congruence.
Qed.

(** An input that has no record stops the first loop, if nothing stopped it
    before. *)
Lemma checkInputs_missing txParams txHash seen ins db a :
  a ∈ ins -> Store.getUtxo db a = None ->
  exists e, checkInputs txParams txHash seen ins db = (Raise e, db).
Proof.
  revert seen. induction ins as [|b ins IH]; intros seen Hin Hnone.
  - inversion Hin.
  - simpl. case_bool_decide; [eexists; reflexivity|].
    unfold mbind, reading, lift.
    destruct (decide (b = a)) as [->|Hne].
    + rewrite Hnone. eexists. reflexivity.
    + destruct (Store.getUtxo db b) as [u|]; [|eexists; reflexivity].
      destruct (withKey _ _) as [[|]|]; simpl; try (eexists; reflexivity).
      apply IH; [|exact Hnone].
      apply elem_of_cons in Hin. destruct Hin as [->|Hin]; [congruence | exact Hin].
Qed.

Lemma addTransaction_missing_input tx db a :
  a ∈ Tx.utxoIns tx -> Store.getUtxo db a = None ->
  exists e, addTransaction tx db = (Raise e, db).
Proof.
  intros Hin Hnone. unfold addTransaction.
  destruct (negb _); [eexists; reflexivity|].
  destruct (checkInputs_missing tx (getTransactionHash (Tx.set_signatures [] tx))
              ∅ _ db a Hin Hnone) as [e He].
  unfold mbind at 1. rewrite He. eexists. reflexivity.
Qed.

(** C5, as the code has it.  For a transaction that passes the count check,
    the input loop (duplicates, lookups, signatures) and the output loop,
    and whose amounts are integers that the two totals add up without
    rounding (the magnitudes of the input amounts looked up, and those of
    the output amounts, add up to at most 2^53), [addTransaction] raises a
    [ValidationError] exactly when the total of the input amounts is
    strictly less than the total of the output amounts, and the store is
    then unchanged; otherwise, and so when the inputs strictly exceed the
    outputs, it accepts: the inputs are spent and the transaction is pooled
    as submitted, no output being added for the surplus. *)
Theorem funds_rule tx db :
  length (Tx.utxoIns tx) = length (Tx.signatures tx) ->
  checkInputs tx (signedMessage tx) ∅ (Tx.utxoIns tx) db = (Ok tt, db) ->
  checkOutputs ∅ (Tx.utxoOuts tx) db = (Ok tt, db) ->
  exactSum (inputAmounts db (Tx.utxoIns tx)) ->
  exactSum (map Out.amount (Tx.utxoOuts tx)) ->
  let totalInput := inputTotal db (Tx.utxoIns tx) in
  let totalOutput := outputTotal (Tx.utxoOuts tx) in
  ((exists why db', addTransaction tx db = (Raise (ValidationError why), db'))
   <-> totalInput < totalOutput)
  /\ (totalInput < totalOutput ->
      addTransaction tx db
      = (Raise (ValidationError (InsufficientInput totalInput totalOutput)), db))
  /\ (totalOutput <= totalInput ->
      addTransaction tx db = (Ok tt, pooledWith tx db)).
Proof.
  intros Hlen Hins Houts _ _ totalInput totalOutput.
  pose proof (addTransaction_checked tx db Hlen Hins Houts) as Hrun.
  fold totalInput totalOutput in Hrun.
  destruct (totalInput <? totalOutput) eqn:Hlt.
  - apply Z.ltb_lt in Hlt. repeat split; intros; try lia; eauto.
  - apply Z.ltb_ge in Hlt. repeat split; intros; try lia; eauto.
    destruct H as (why & db' & H). rewrite Hrun in H. discriminate.
Qed.

(** C1, where the code departs from it.  A transaction with one input is
    accepted as soon as the input has a record and its signature verifies,
    the outputs pass their loop and the amounts fit; that the record already
    names a spender changes nothing: the input is spent a second time, and
    the record then names the new spender. *)
Theorem spent_input_accepted db a u spender txId sig outs :
  Store.getUtxo db a = Some u ->
  Utxo.txIn u = Some spender ->
  let tx := Tx.mk txId [a] outs [sig] None in
  verifySignature (signedMessage tx) (Utxo.address u) sig = Ok true ->
  checkOutputs ∅ outs db = (Ok tt, db) ->
  outputTotal outs <= Utxo.amount u ->
  addTransaction tx db = (Ok tt, pooledWith tx db)
  /\ Store.getUtxo (Store.spendUtxos txId [a] db) a
     = Some (Store.set_txIn txId u).
Proof.
  intros Hu Hspent tx Hsig Houts Hamount. split.
  - rewrite addTransaction_checked.
    + unfold inputTotal. simpl. rewrite Hu. simpl.
      destruct (_ <? _) eqn:Hlt; [apply Z.ltb_lt in Hlt; lia | reflexivity].
    + reflexivity.
    + simpl. case_bool_decide as Hin; [set_solver|].
      unfold mbind, reading, lift. rewrite Hu. simpl.
      rewrite String.eqb_refl. simpl. fold tx. rewrite Hsig. reflexivity.
    + exact Houts.
  - unfold Store.spendUtxos, Store.getUtxo in *. simpl.
    rewrite lookup_alter_eq, Hu. reflexivity.
Qed.
End AddTransactionFacts.

(** *** [addTransaction] on the ledger of the instance *)

Section AddTransactionOnLedger.
#[local] Existing Instance Toy.lib.

Lemma funds_rule_witness :
  inputTotal Ledger.genesis (Tx.utxoIns Scenes.surplus) = 150
  /\ outputTotal (Tx.utxoOuts Scenes.surplus) = 100
  /\ addTransaction Scenes.surplus Ledger.genesis
     = (Ok tt, pooledWith Scenes.surplus Ledger.genesis)
  /\ outputTotal (Tx.utxoOuts Scenes.overdraft) = 200
  /\ addTransaction Scenes.overdraft Ledger.genesis
     = (Raise (ValidationError (InsufficientInput 150 200)), Ledger.genesis)
  /\ Doubles.insufficient [Doubles.ofZ 150] [Doubles.ofZ 100] = false
  /\ Doubles.insufficient [Doubles.ofZ 150] [Doubles.ofZ 200] = true.
Proof.
  split; [reflexivity|]. split; [reflexivity|].
  split; [|split; [reflexivity|split; [|split; vm_compute; reflexivity]]].
  - refine (proj2 (proj2 (funds_rule Scenes.surplus Ledger.genesis _ _ _ _ _)) _);
      vm_compute; first [reflexivity | discriminate].
  - refine (proj1 (proj2 (funds_rule Scenes.overdraft Ledger.genesis _ _ _ _ _)) _);
      vm_compute; first [reflexivity | discriminate].
Defined.

(** C5, as the specification has it, fails where the totals are rounded:
    for an input of 2^53 and outputs of 2^53 and 1, all of them doubles,
    the inputs add up to strictly less than the outputs, and the test of
    [addTransaction], run on doubles, does not fire. *)
Lemma funds_rule_rounding :
  map Doubles.integer (map Doubles.ofZ [Scenes.edge]) = [Some Scenes.edge]
  /\ map Doubles.integer (map Doubles.ofZ [Scenes.edge; 1]) = [Some Scenes.edge; Some 1]
  /\ foldr Z.add 0 [Scenes.edge] < foldr Z.add 0 [Scenes.edge; 1]
  /\ Doubles.insufficient (map Doubles.ofZ [Scenes.edge])
                          (map Doubles.ofZ [Scenes.edge; 1]) = false.
Proof. repeat split; vm_compute; reflexivity. Qed.

Lemma spent_input_accepted_witness :
  addTransaction Ledger.payment Ledger.genesis = (Ok tt, Ledger.pooled)
  /\ Tx.utxoIns Ledger.payment = [Ledger.receive0]
  /\ Tx.utxoIns Ledger.secondPayment = [Ledger.receive0]
  /\ Tx._id Ledger.payment <> Tx._id Ledger.secondPayment
  /\ Utxo.txIn <$> Store.getUtxo Ledger.pooled Ledger.receive0
     = Some (Tx._id Ledger.payment)
  /\ addTransaction Ledger.secondPayment Ledger.pooled
     = (Ok tt, pooledWith Ledger.secondPayment Ledger.pooled).
Proof.
  split; [vm_compute; reflexivity|].
  split; [reflexivity|]. split; [reflexivity|].
  split; [vm_compute; discriminate|].
  split; [vm_compute; reflexivity|].
  refine (proj1 (spent_input_accepted Ledger.pooled Ledger.receive0
                   (Utxo.mk Ledger.receive0 150 (Some "1111g") (Tx._id Ledger.payment))
                   (default "" (Tx._id Ledger.payment))
                   (Tx._id Ledger.secondPayment)
                   (default "" (head (Tx.signatures Ledger.secondPayment)))
                   (Tx.utxoOuts Ledger.secondPayment) _ _ _ _ _));
    vm_compute; first [reflexivity | discriminate].
Defined.
End AddTransactionOnLedger.

(** ** The transaction limit *)

Section LimitFacts.
Context `{L : Lib}.

(** Neither [addBlock] nor [mine] reads [this.limit]. *)
Lemma addBlock_ignores_limit difficulty limit limit' amount block coinbase transactions :
  addBlock (Server.mk difficulty limit amount) block coinbase transactions
  = addBlock (Server.mk difficulty limit' amount) block coinbase transactions.
Proof. reflexivity. Qed.

Lemma mine_ignores_limit mnemonic difficulty limit limit' amount db fuel account :
  mine (Client.mk mnemonic difficulty limit amount) db fuel account
  = mine (Client.mk mnemonic difficulty limit' amount) db fuel account.
Proof. reflexivity. Qed.
End LimitFacts.

Section LimitOnLedger.
#[local] Existing Instance Toy.lib.

(** C7, where the code departs from it.  With a limit of one transaction
    per block, coinbase included, [mine] still puts the pooled payment next
    to the coinbase, and [addBlock] accepts the block that references it:
    two transactions in a block limited to one. *)
Theorem limit_not_enforced :
  Client.limit (DotcoinClient Ledger.oneTransaction "") = 1%nat
  /\ Server.limit (DotcoinServer Ledger.oneTransaction) = 1%nat
  /\ mine (DotcoinClient Ledger.oneTransaction "") Ledger.pooled 4 0 = Ret Ledger.mined
  /\ length (Mined.transactions Ledger.mined) = 1%nat
  /\ addBlock (DotcoinServer Ledger.oneTransaction) (Mined.block Ledger.mined)
              (Mined.coinbase Ledger.mined) Ledger.refs Ledger.pooled
     = (Ok tt, Ledger.confirmed)
  /\ (length Ledger.refs + 1 = 2)%nat.
Proof. repeat split; vm_compute; reflexivity. Qed.
End LimitOnLedger.

(** ** [verifySignature] *)

Section VerifyFacts.
Context `{L : Lib}.

Lemma base58_decode_outside (s : string) :
  forallb in_alphabet (list_ascii_of_string s) = false ->
  base58_decode s = Raise LibraryError.
Proof. intros H. unfold base58_decode. rewrite H. reflexivity. Qed.

(** C8, as the code has it.  [verifySignature] returns a boolean exactly
    when the hash and the signature decode, the key parses and the
    library's [verify] does not raise, and the boolean is then the
    library's verdict; in every other case it raises, as it does when the
    hash or the signature has a character outside the base58 alphabet. *)
Theorem verifySignature_boolean hash publicKey sig :
  (forall b,
      verifySignature hash publicKey sig = Ok b <->
      exists decodedHash decodedSig keyPair,
        base58_decode hash = Ok decodedHash
        /\ base58_decode sig = Ok decodedSig
        /\ fromExtendedKey publicKey = Ok keyPair
        /\ hd_verify keyPair decodedHash decodedSig = Ok b)
  /\ (forallb in_alphabet (list_ascii_of_string hash) = false
      \/ forallb in_alphabet (list_ascii_of_string sig) = false ->
      exists e, verifySignature hash publicKey sig = Raise e).
Proof.
  unfold verifySignature. split.
  - intros b. split.
    + intros H.
      destruct (base58_decode hash) as [dh|]; simpl in H; [|discriminate].
      destruct (base58_decode sig) as [ds|]; simpl in H; [|discriminate].
      destruct (fromExtendedKey publicKey) as [k|]; simpl in H; [|discriminate].
      exists dh, ds, k. auto.
    + intros (dh & ds & k & -> & -> & -> & H). exact H.
  - intros [H|H].
    + rewrite (base58_decode_outside _ H). eexists. reflexivity.
    + rewrite (base58_decode_outside sig H).
      destruct (base58_decode hash); eexists; reflexivity.
Qed.
End VerifyFacts.

(** C8, as the specification has it, fails whatever the libraries are: the
    hash ["0"] is not base58, and decoding it raises. *)
Lemma verifySignature_may_throw :
  ~ (exists L : Lib, forall hash publicKey sig : string,
        exists b : bool, verifySignature hash publicKey sig = Ok b).
Proof.
  intros [L H]. destruct (H "0" "" "") as [b Hb].
  unfold verifySignature in Hb.
  rewrite base58_decode_outside in Hb by reflexivity. discriminate.
Qed.

Section VerifyOnLedger.
#[local] Existing Instance Toy.lib.

Lemma verifySignature_boolean_witness :
  verifySignature (signedMessage Ledger.payment) Ledger.receive0
                  (default "" (head (Tx.signatures Ledger.payment))) = Ok true
  /\ exists e, verifySignature "0" Ledger.receive0 "" = Raise e.
Proof.
  split.
  - apply (proj1 (verifySignature_boolean _ _ _)).
    exists (Toy.bytes_of_string (signedMessage Ledger.payment)),
           (Toy.bytes_of_string (default "" (head (Tx.signatures Ledger.payment)))),
           (Toy.mkKey false "xmz44zz1zzzzz1abandon").
    repeat split; vm_compute; reflexivity.
  - apply (proj2 (verifySignature_boolean "0" Ledger.receive0 "")).
    left. reflexivity.
Defined.
End VerifyOnLedger.

(** ** The transaction builder *)

Section BuilderFacts.
Context `{L : Lib}.
Variable this : Client.t.
Variable db : Db.

Lemma createTransaction_Ret fuel account address amount tx :
  createTransaction this db fuel account address amount = Ret tx ->
  exists sel recipientAddress changeOuts signatures,
    selectUtxos this db fuel account amount 0 (mkSelection 0 [] []) = Ret sel
    /\ amount <= total sel
    /\ changeOutput this db account fuel (total sel - amount) changeOuts
    /\ nextUnused db fuel address 0 = Ret recipientAddress
    /\ (let unsigned := Tx.mk None (utxoIns sel)
                              (Out.mk recipientAddress amount :: changeOuts) [] None in
        signInputs this account (getTransactionHash unsigned) (selectedUtxos sel)
        = Ok signatures
        /\ tx = Tx.set_id (Some (getTransactionHash (Tx.set_signatures signatures unsigned)))
                          (Tx.set_signatures signatures unsigned)).
Proof.
  unfold createTransaction. intros H.
  destruct (selectUtxos _ _ _ _ _ _ _) as [sel| |] eqn:Hsel; simpl in H;
    try discriminate.
  destruct (total sel <? amount) eqn:Hlt; [discriminate|]. apply Z.ltb_ge in Hlt.
  destruct (total sel - amount <? 0) eqn:Hneg; [discriminate|].
  match type of H with
  | obind ?m _ = _ => destruct m as [changeAddress| |] eqn:Hchange
  end; simpl in H; try discriminate.
  destruct (nextUnused db fuel address 0) as [recipientAddress| |] eqn:Hrec;
    simpl in H; try discriminate.
  match type of H with
  | obind (finished ?m) _ = _ => destruct m as [signatures|] eqn:Hsig
  end; simpl in H; try discriminate.
  inversion H; subst; clear H.
  exists sel, recipientAddress.
  exists (if 0 <? total sel - amount
          then match changeAddress with Some a => [Out.mk a (total sel - amount)] | None => [] end
          else []).
  exists signatures. repeat split; auto.
  unfold changeOutput. destruct (0 <? total sel - amount) eqn:Hpos; [|reflexivity].
  destruct (getChangeKeys _ _) as [changeParent|]; simpl in Hchange; [|discriminate].
  destruct (nextUnused db fuel (publicKey changeParent) 0) as [a| |] eqn:Ha;
    simpl in Hchange; try discriminate.
  inversion Hchange; subst. exists changeParent, a. auto.
Qed.

(** C9. The next-unused-address loop, run from index 0 on any parent key and
    any store, returns only the address derived at the first index whose
    address has no UTXO record, an address that is therefore no key of the
    store; it does return it when the fuel reaches that index, and there
    is such an index within the size of the store when the derivation
    never raises and never repeats an address.  The recipient and change
    outputs of [createTransaction] and the reward
    output of [mine] carry the address this loop returns. *)
Theorem next_unused_address fuel :
  (forall parentKey a,
      nextUnused db fuel parentKey 0 = Ret a ->
      Store.getUtxo db a = None
      /\ exists i, childAddress parentKey i = Ok a /\ allUsed db parentKey 0 i)
  /\ (forall parentKey i a,
      childAddress parentKey i = Ok a ->
      Store.getUtxo db a = None ->
      allUsed db parentKey 0 i ->
      (i < fuel)%nat ->
      nextUnused db fuel parentKey 0 = Ret a)
  /\ (forall parentKey derived,
      (forall i, childAddress parentKey i = Ok (derived i)) ->
      (forall i j, derived i = derived j -> i = j) ->
      (size (utxos db) < fuel)%nat ->
      exists a, nextUnused db fuel parentKey 0 = Ret a)
  /\ (forall account address amount tx,
      createTransaction this db fuel account address amount = Ret tx ->
      exists recipientAddress changeOuts,
        nextUnused db fuel address 0 = Ret recipientAddress
        /\ Tx.utxoOuts tx = Out.mk recipientAddress amount :: changeOuts
        /\ forall o, o ∈ changeOuts ->
             exists changeParent,
               getChangeKeys (Client.mnemonic this) account = Ok changeParent
               /\ nextUnused db fuel (publicKey changeParent) 0 = Ret (Out.address o))
  /\ (forall account r,
      mine this db fuel account = Ret r ->
      exists parent a,
        getReceiveKeys (Client.mnemonic this) account = Ok parent
        /\ nextUnused db fuel (publicKey parent) 0 = Ret a
        /\ map Out.address (Tx.utxoOuts (Mined.coinbase r)) = [a]).
Proof.
  split; [|split; [|split; [|split]]].
  - intros parentKey a H. apply nextUnused_Ret in H.
    destruct H as (i & _ & Hc & Hnone & Hused). split; [exact Hnone|].
    exists i. auto.
  - intros parentKey i a Hc Hnone Hused Hfuel.
    apply (nextUnused_found db fuel parentKey 0%nat i a); auto; lia.
  - intros parentKey derived Hderives Hdistinct Hfuel.
    apply (nextUnused_ends db parentKey derived); assumption.
  - intros account address amount tx H. apply createTransaction_Ret in H.
    destruct H as (sel & recipientAddress & changeOuts & signatures
                   & _ & _ & Hchange & Hrec & _ & ->).
    exists recipientAddress, changeOuts. repeat split; auto.
    intros o Ho. unfold changeOutput in Hchange.
    destruct (0 <? total sel - amount).
    + destruct Hchange as (changeParent & a & Hp & Ha & ->).
      apply list_elem_of_singleton in Ho. subst. exists changeParent. auto.
    + subst. inversion Ho.
  - intros account r H. apply mine_Ret in H.
    destruct H as (parent & a & k & Hp & Ha & Hcb & _). simpl in Hcb.
    exists parent, a. rewrite Hcb. auto.
Qed.
End BuilderFacts.

Section NextUnusedOnLedger.
#[local] Existing Instance Toy.lib.

Lemma next_unused_address_witness :
  Store.getUtxo Ledger.genesis "Pixmz44zz1zzzzz1abandon" = None
  /\ nextUnused Ledger.genesis 4 "Pmz44zz1zzzzz1abandon" 0
     = Ret "Pixmz44zz1zzzzz1abandon"
  /\ (exists recipientAddress changeOuts,
        nextUnused Ledger.genesis 4 Ledger.recipient 0 = Ret recipientAddress
        /\ Tx.utxoOuts Ledger.payment = Out.mk recipientAddress 100 :: changeOuts)
  /\ (exists a, map Out.address (Tx.utxoOuts (Mined.coinbase Ledger.mined)) = [a]).
Proof.
  destruct (next_unused_address Toy.client Ledger.genesis 4)
    as (Hreturned & Hfound & _ & Hbuilder & _).
  destruct (next_unused_address Toy.client Ledger.pooled 4)
    as (_ & _ & _ & _ & Hmine).
  assert (Hfirst : nextUnused Ledger.genesis 4 "Pmz44zz1zzzzz1abandon" 0
                   = Ret "Pixmz44zz1zzzzz1abandon").
  { apply (Hfound _ 1%nat); [reflexivity | reflexivity | | lia].
    intros j Hj. assert (j = 0%nat) as -> by lia.
    exists Ledger.receive0. split; [reflexivity | vm_compute; eauto]. }
  split; [|split; [|split]].
  - apply (Hreturned _ _ Hfirst).
  - exact Hfirst.
  - destruct (Hbuilder 0%N Ledger.recipient 100 Ledger.payment)
      as (recipientAddress & changeOuts & Hrec & Houts & _);
      [vm_compute; reflexivity|].
    exists recipientAddress, changeOuts. auto.
  - destruct (Hmine 0%N Ledger.mined) as (parent & a & _ & _ & Ha);
      [vm_compute; reflexivity|].
    exists a. exact Ha.
Defined.
End NextUnusedOnLedger.

(** ** The balance *)

Section BalanceFacts.
Context `{L : Lib}.
Variable this : Client.t.
Variable db : Db.
Variable account : N.



Lemma getBalance_step fuel index totals :
  getBalance_from this db (S fuel) account index totals
  = let* records := recordsAt this db account index in
    match records with
    | [] => Ret (mkBalance (fst totals) (snd totals))
    | _ => getBalance_from this db fuel account (S index) (fold_left tally records totals)
    end.
Proof.
  simpl. unfold recordsAt, addressesAt.
  destruct (getReceiveKeys _ _) as [rp|]; simpl; [|reflexivity].
  destruct (getChangeKeys _ _) as [cp|]; simpl; [|reflexivity].
  destruct (getChildKeys (publicKey rp) index) as [rk|]; simpl; [|reflexivity].
  destruct (getChildKeys (publicKey cp) index) as [ck|]; simpl; [|reflexivity].
  destruct (Store.getUtxo db (publicKey rk)), (Store.getUtxo db (publicKey ck));
    reflexivity.
Qed.


End BalanceFacts.

(** ** Round trip: a built transaction is accepted *)

Section RoundTrip.
Context `{L : Lib}.
Variable this : Client.t.
Variable db : Db.
Variable account : N.

Lemma selectFrom_picked amount receiveAddress k us sel :
  exists picked,
    picked `sublist_of` us
    /\ selectFrom amount receiveAddress k us sel
       = mkSelection (total sel + sumAmounts picked)
           (selectedUtxos sel
            ++ map (fun u => mkSelected u k (typeOf receiveAddress u)) picked)
           (utxoIns sel ++ map Utxo.address picked).
Proof.
  revert sel. induction us as [|u us IH]; intros sel; simpl.
  - exists []. split; [constructor|]. unfold sumAmounts. simpl.
    rewrite Z.add_0_r, !app_nil_r. destruct sel; reflexivity.
  - destruct (truthy (Utxo.txIn u)).
    { destruct (IH sel) as (picked & Hsub & ->).
      exists picked. split; [constructor; exact Hsub | reflexivity]. }
    destruct (negb (truthy (Utxo.block u))).
    { destruct (IH sel) as (picked & Hsub & ->).
      exists picked. split; [constructor; exact Hsub | reflexivity]. }
    destruct (amount <=? total sel).
    { exists []. split; [apply sublist_nil_l|]. unfold sumAmounts. simpl.
      rewrite Z.add_0_r, !app_nil_r. destruct sel; reflexivity. }
    match goal with
    | |- context [selectFrom _ _ _ us ?s] => destruct (IH s) as (picked & Hsub & ->)
    end.
    exists (u :: picked). split; [constructor; exact Hsub|]. simpl.
    unfold sumAmounts, typeOf. simpl. rewrite <- !app_assoc. simpl.
    f_equal. lia.
Qed.
Lemma addressesAt_Ok k ra ca :
  addressesAt this account k = Ok (ra, ca) ->
  addressAt this account receive k = Ok ra /\ addressAt this account change k = Ok ca.
Proof.
  unfold addressesAt, addressAt, parentKeys, childAddress.
  destruct (getReceiveKeys _ _) as [rp|]; simpl; [|discriminate].
  destruct (getChangeKeys _ _) as [cp|]; simpl; [|discriminate].
  destruct (getChildKeys (publicKey rp) k) as [rk|]; simpl; [|discriminate].
  destruct (getChildKeys (publicKey cp) k) as [ck|]; simpl; [|discriminate].
  intros H. inversion H. auto.
Qed.

Lemma selectUtxos_step fuel amount k sel :
  selectUtxos this db (S fuel) account amount k sel
  = if total sel <? amount then
      let* addresses := addressesAt this account k in
      let allUtxos := toArray (Store.getUtxo db (fst addresses))
                      ++ toArray (Store.getUtxo db (snd addresses)) in
      if Nat.eqb (length allUtxos) 0 && Nat.ltb 0 k then Ret sel
      else selectUtxos this db fuel account amount (S k)
             (selectFrom amount (fst addresses) k allUtxos sel)
    else Ret sel.
Proof.
  simpl. destruct (total sel <? amount); [|reflexivity].
  unfold addressesAt.
  destruct (getReceiveKeys _ _) as [rp|]; simpl; [|reflexivity].
  destruct (getChangeKeys _ _) as [cp|]; simpl; [|reflexivity].
  destruct (getChildKeys (publicKey rp) k) as [rk|]; simpl; [|reflexivity].
  destruct (getChildKeys (publicKey cp) k) as [ck|]; simpl; reflexivity.
Qed.

Hypothesis laws : WalletLaws this account.
Hypothesis keyed : storeKeyed db.

(** What the loop finds at child index [k] belongs to the chains. *)
Lemma found_at k ra ca u :
  addressAt this account receive k = Ok ra -> addressAt this account change k = Ok ca ->
  u ∈ toArray (Store.getUtxo db ra) ++ toArray (Store.getUtxo db ca) ->
  addressAt this account (typeOf ra u) k = Ok (Utxo.address u)
  /\ Store.getUtxo db (Utxo.address u) = Some u.
Proof.
  intros Hra Hca Hu. unfold typeOf.
  apply elem_of_app in Hu. destruct Hu as [Hu|Hu].
  - destruct (Store.getUtxo db ra) as [u1|] eqn:H1; simpl in Hu; [|inversion Hu].
    apply list_elem_of_singleton in Hu. subst u1.
    rewrite (keyed _ _ H1), String.eqb_refl. auto.
  - destruct (Store.getUtxo db ca) as [u2|] eqn:H2; simpl in Hu; [|inversion Hu].
    apply list_elem_of_singleton in Hu. subst u2.
    rewrite (keyed _ _ H2).
    destruct (String.eqb ca ra) eqn:E; [|auto].
    apply String.eqb_eq in E. subst ca.
    destruct (addresses_distinct laws _ _ _ _ _ Hra Hca) as [Hne _]. discriminate.
Qed.

Lemma found_at_NoDup k ra ca :
  addressAt this account receive k = Ok ra -> addressAt this account change k = Ok ca ->
  NoDup (map (fun u => (typeOf ra u, k))
             (toArray (Store.getUtxo db ra) ++ toArray (Store.getUtxo db ca))).
Proof.
  intros Hra Hca.
  assert (Hmem := found_at k ra ca).
  destruct (Store.getUtxo db ra) as [u1|] eqn:H1,
           (Store.getUtxo db ca) as [u2|] eqn:H2; simpl in *.
  - apply NoDup_cons. split; [|apply NoDup_singleton].
    intros Hin. apply list_elem_of_singleton in Hin.
    destruct (Hmem u1 Hra Hca) as [A1 _]; [left|].
    destruct (Hmem u2 Hra Hca) as [A2 _]; [right; left|].
    inversion Hin as [Ht]. rewrite Ht in A1.
    rewrite (keyed _ _ H1) in A1. rewrite (keyed _ _ H2) in A2.
    assert (ra = ca) as -> by congruence.
    destruct (addresses_distinct laws _ _ _ _ _ Hra Hca) as [Hne _]. discriminate.
  - apply NoDup_singleton.
  - apply NoDup_singleton.
  - apply NoDup_nil_2.
Qed.

Lemma selectedOk_mono k k' s : (k <= k')%nat -> selectedOk this db account k s -> selectedOk this db account k' s.
Proof. intros Hle (Hlt & Ha & Hu). repeat split; auto. lia. Qed.

Lemma selectFrom_ok amount k ra ca sel :
  addressesAt this account k = Ok (ra, ca) ->
  selectionOk this db account k sel ->
  selectionOk this db account (S k)
    (selectFrom amount ra k
       (toArray (Store.getUtxo db ra) ++ toArray (Store.getUtxo db ca)) sel).
Proof.
  intros Hads (Hins & Htotal & Hall & Hnodup).
  apply addressesAt_Ok in Hads. destruct Hads as [Hra Hca].
  destruct (selectFrom_picked amount ra k
              (toArray (Store.getUtxo db ra) ++ toArray (Store.getUtxo db ca)) sel)
    as (picked & Hsub & ->).
  unfold selectionOk. simpl. repeat split.
  - rewrite Hins, map_app, map_map. reflexivity.
  - rewrite Htotal, map_app, map_map. simpl. unfold sumAmounts.
    rewrite map_app, foldr_app.
    rewrite map_id.
    generalize (map Utxo.amount (map utxo (selectedUtxos sel))). intros l.
    induction l as [|z l IHl]; simpl; [lia|]. rewrite <- IHl. lia.
  - apply Forall_app. split.
    + eapply Forall_impl; [exact Hall|]. intros s Hs.
      apply (selectedOk_mono k); [lia | exact Hs].
    + apply Forall_forall. intros s Hs.
      apply (list_elem_of_fmap _ picked) in Hs. destruct Hs as (u & -> & Hu).
      destruct (found_at k ra ca u Hra Hca) as [A B].
      { eapply elem_of_sublist; eassumption. }
      repeat split; simpl; auto.
  - rewrite map_app, map_map. simpl. apply NoDup_app. repeat split.
    + exact Hnodup.
    + intros p Hold Hnew.
      apply (list_elem_of_fmap _ (selectedUtxos sel)) in Hold.
      destruct Hold as (s & -> & Hs).
      apply (list_elem_of_fmap _ picked) in Hnew. destruct Hnew as (u & Hp & _).
      inversion Hp as [[Ht Hk]].
      rewrite Forall_forall in Hall. destruct (Hall s Hs) as (Hlt & _). lia.
    + eapply sublist_NoDup; [apply (found_at_NoDup k ra ca Hra Hca)|].
      apply (fmap_sublist (fun u => (typeOf ra u, k))). exact Hsub.
Qed.

Lemma selectUtxos_ok fuel amount k sel sel' :
  selectUtxos this db fuel account amount k sel = Ret sel' ->
  selectionOk this db account k sel ->
  exists k', selectionOk this db account k' sel'.
Proof.
  revert k sel. induction fuel as [|fuel IH]; intros k sel H Hok.
  - simpl in H. destruct (total sel <? amount); [discriminate|].
    inversion H; subst. eauto.
  - rewrite selectUtxos_step in H.
    destruct (total sel <? amount); [|inversion H; subst; eauto].
    destruct (addressesAt this account k) as [[ra ca]|] eqn:Hads; simpl in H;
      [|discriminate].
    destruct (_ && _); [inversion H; subst; eauto|].
    eapply IH; [exact H|]. apply (selectFrom_ok amount k ra ca); assumption.
Qed.

Lemma selection_inputs_NoDup k sel :
  selectionOk this db account k sel -> NoDup (utxoIns sel).
Proof.
  intros (Hins & _ & Hall & Hnodup). rewrite Hins.
  apply (NoDup_fmap_2_strong (fun s => Utxo.address (utxo s))).
  - intros s1 s2 H1 H2 Heq. rewrite Forall_forall in Hall.
    destruct (Hall s1 H1) as (_ & A1 & U1). destruct (Hall s2 H2) as (_ & A2 & U2).
    simpl in Heq. rewrite Heq in A1, U1.
    destruct (addresses_distinct laws _ _ _ _ _ A1 A2) as [Ht Hi].
    destruct s1, s2; simpl in *. congruence.
  - eapply (NoDup_fmap_1 (fun s => (type s, childIndex s))). exact Hnodup.
Qed.

Lemma selection_inputTotal k sel :
  selectionOk this db account k sel -> inputTotal db (utxoIns sel) = total sel.
Proof.
  intros (Hins & Htotal & Hall & _). rewrite Hins, Htotal.
  unfold inputTotal, sumAmounts. do 2 f_equal. clear Hins Htotal.
  induction Hall as [|s l (_ & _ & Hu) _ IH]; simpl; [reflexivity|].
  rewrite Hu. simpl. f_equal. exact IH.
Qed.

Lemma signInputs_Ok message selected signatures :
  signInputs this account message selected = Ok signatures ->
  Forall2 (fun s sig => signatureAt this account (type s) (childIndex s) message = Ok sig)
          selected signatures.
Proof.
  revert signatures. induction selected as [|s selected IH]; intros signatures H;
    simpl in H.
  - inversion H. constructor.
  - fold (parentKeys this account (type s)) in H.
    destruct (parentKeys this account (type s)) as [parent|] eqn:Hp; simpl in H; [|discriminate].
    destruct (withKey (privateKey parent) _) as [keyPair|] eqn:Hk; simpl in H;
      [|discriminate].
    destruct (withKey (privateKey keyPair) _) as [sig|] eqn:Hs; simpl in H;
      [|discriminate].
    destruct (signInputs this account message selected) as [sigs|]; simpl in H;
      [|discriminate].
    inversion H; subst. constructor; [|apply IH; reflexivity].
    unfold signatureAt. rewrite Hp. simpl. rewrite Hk. simpl. exact Hs.
Qed.

Lemma selection_verifies k sel message signatures :
  selectionOk this db account k sel ->
  signInputs this account message (selectedUtxos sel) = Ok signatures ->
  inputsVerify db message (utxoIns sel) signatures.
Proof.
  intros (Hins & _ & Hall & _) Hsig. apply signInputs_Ok in Hsig.
  unfold inputsVerify. rewrite Hins. clear Hins.
  induction Hsig as [|s sig selected sigs Hs _ IH]; simpl; [constructor|].
  inversion Hall as [|? ? (_ & Ha & Hu) Hall']; subst.
  constructor; [|apply IH; exact Hall'].
  exists (utxo s). split; [exact Hu|].
  eapply (signature_verifies laws); eassumption.
Qed.

Lemma indexOf_fresh (pre rest : list string) (a : string) :
  a ∉ pre -> indexOf (pre ++ a :: rest) a = length pre.
Proof.
  induction pre as [|b pre IH]; intros Hfresh; simpl.
  - rewrite String.eqb_refl. reflexivity.
  - destruct (String.eqb b a) eqn:E.
    + apply String.eqb_eq in E. subst. exfalso. apply Hfresh. left.
    + rewrite IH; [reflexivity|]. intros Hin. apply Hfresh. right. exact Hin.
Qed.

Lemma checkInputs_verified tx message pre rest sigsPre sigsRest (seen : gset string) :
  Tx.utxoIns tx = pre ++ rest ->
  Tx.signatures tx = sigsPre ++ sigsRest ->
  length pre = length sigsPre ->
  NoDup (pre ++ rest) ->
  (forall x, x ∈ seen <-> x ∈ pre) ->
  inputsVerify db message rest sigsRest ->
  checkInputs tx message seen rest db = (Ok tt, db).
Proof.
  intros Hins Hsigs Hlen Hnodup Hseen Hverify.
  revert pre sigsPre seen Hins Hsigs Hlen Hnodup Hseen.
  induction Hverify as [|a sig rest sigsRest (u & Hu & Hsig) _ IH];
    intros pre sigsPre seen Hins Hsigs Hlen Hnodup Hseen; simpl.
  - reflexivity.
  - assert (Hfresh : a ∉ pre).
    { apply NoDup_app in Hnodup. destruct Hnodup as (_ & Hdisj & _).
      intros Hin. apply (Hdisj a Hin). left. }
    case_bool_decide as Hin; [apply Hseen in Hin; contradiction|].
    unfold mbind, reading, lift. rewrite Hu.
    rewrite Hins, (indexOf_fresh _ _ _ Hfresh), Hsigs, Hlen.
    rewrite list_lookup_middle by reflexivity. simpl. rewrite Hsig. simpl.
    apply (IH (pre ++ [a]) (sigsPre ++ [sig])).
    + rewrite <- app_assoc. exact Hins.
    + rewrite <- app_assoc. exact Hsigs.
    + rewrite !length_app. simpl. lia.
    + rewrite <- app_assoc. exact Hnodup.
    + intros x. rewrite elem_of_union, elem_of_singleton, elem_of_app,
        list_elem_of_singleton, Hseen. tauto.
Qed.

Lemma checkOutputs_distinct (seen : gset string) outs :
  (forall o, o ∈ outs -> Out.address o ∉ seen) ->
  NoDup (map Out.address outs) ->
  Forall (fun o => 0 < Out.amount o) outs ->
  checkOutputs seen outs db = (Ok tt, db).
Proof.
  intros Hseen Hnodup Hpos. revert seen Hseen Hnodup.
  induction Hpos as [|o outs Ho _ IH]; intros seen Hseen Hnodup; simpl.
  - reflexivity.
  - case_bool_decide as Hin; [exfalso; apply (Hseen o); [left | exact Hin]|].
    destruct (Out.amount o <=? 0) eqn:Hle; [apply Z.leb_le in Hle; lia|].
    simpl in Hnodup. apply NoDup_cons in Hnodup. destruct Hnodup as [Hfresh Hnodup].
    apply IH; [|exact Hnodup].
    intros o' Ho' Hin'. apply elem_of_union in Hin'. destruct Hin' as [Hin'|Hin'].
    + apply elem_of_singleton in Hin'. apply Hfresh.
      rewrite <- Hin'. apply (list_elem_of_fmap_2 Out.address). exact Ho'.
    + apply (Hseen o'); [right; exact Ho' | exact Hin'].
Qed.

(** C2, as the code has it.  For a wallet whose libraries satisfy
    [WalletLaws], over a store that keeps every record under its own
    address, a transaction that [createTransaction] returns for a positive
    amount, whose outputs go to distinct addresses, and whose amounts are
    integers that add up without rounding (the magnitudes of the amount and
    of the amounts of the records spent add up to at most 2^53), is
    accepted by [addTransaction] against the same store: the validator
    recomputes the hash the builder signed, each positional signature
    verifies under the address of the record of the corresponding input,
    and the inputs cover the outputs. *)
Theorem built_transaction_accepted fuel address amount tx :
  0 < amount ->
  createTransaction this db fuel account address amount = Ret tx ->
  NoDup (map Out.address (Tx.utxoOuts tx)) ->
  exactSum (amount :: inputAmounts db (Tx.utxoIns tx)) ->
  signedMessage tx
  = getTransactionHash (Tx.mk None (Tx.utxoIns tx) (Tx.utxoOuts tx) [] None)
  /\ inputsVerify db (signedMessage tx) (Tx.utxoIns tx) (Tx.signatures tx)
  /\ addTransaction tx db = (Ok tt, pooledWith tx db).
Proof.
  intros Hamount Hbuilt Houts _. apply createTransaction_Ret in Hbuilt.
  destruct Hbuilt as (sel & recipientAddress & changeOuts & signatures
                      & Hsel & Hcover & Hchange & _ & Hsig & ->).
  destruct (selectUtxos_ok _ _ _ _ _ Hsel) as [k Hok].
  { repeat split; simpl; constructor. }
  set (outs := Out.mk recipientAddress amount :: changeOuts) in *.
  set (unsigned := Tx.mk None (utxoIns sel) outs [] None) in *.
  assert (Hmessage :
            signedMessage (Tx.set_id (Some (getTransactionHash
                                             (Tx.set_signatures signatures unsigned)))
                                     (Tx.set_signatures signatures unsigned))
            = getTransactionHash unsigned).
  { unfold signedMessage. simpl.
    apply (hash_ignores_id laws unsigned). }
  pose proof (selection_verifies k sel _ _ Hok Hsig) as Hverify.
  assert (Hlen : length (utxoIns sel) = length signatures).
  { eapply Forall2_length. exact Hverify. }
  split; [exact Hmessage|]. split; [rewrite Hmessage; exact Hverify|].
  rewrite addTransaction_checked.
  - change (Tx.utxoIns (Tx.set_id _ _)) with (utxoIns sel).
    change (Tx.utxoOuts (Tx.set_id _ _)) with outs.
    rewrite (selection_inputTotal k sel Hok).
    assert (Htotal : outputTotal outs = total sel).
    { unfold outputTotal, outs. simpl. unfold changeOutput in Hchange.
      destruct (0 <? total sel - amount) eqn:Hpos.
      - destruct Hchange as (cp & a & _ & _ & ->). simpl. lia.
      - apply Z.ltb_ge in Hpos. rewrite Hchange. simpl. lia. }
    rewrite Htotal, Z.ltb_irrefl. reflexivity.
  - exact Hlen.
  - rewrite Hmessage.
    apply (checkInputs_verified _ _ [] (utxoIns sel) [] signatures); auto.
    + eapply selection_inputs_NoDup. exact Hok.
    + intros x. split; [set_solver | intros Hx; inversion Hx].
  - change (checkOutputs ∅ outs db = (Ok tt, db)).
    apply checkOutputs_distinct.
    + intros o _. set_solver.
    + exact Houts.
    + unfold outs. constructor; [exact Hamount|].
      unfold changeOutput in Hchange.
      destruct (0 <? total sel - amount) eqn:Hpos.
      * destruct Hchange as (cp & a & _ & _ & ->).
        apply Z.ltb_lt in Hpos. constructor; [exact Hpos | constructor].
      * rewrite Hchange. constructor.
Qed.
End RoundTrip.

(** A transaction built for the amount 0 is rejected, whatever the
    libraries, the wallet and the store are. *)
Lemma zero_amount_rejected `{L : Lib} this db fuel account address tx :
  createTransaction this db fuel account address 0 = Ret tx ->
  exists a, addTransaction tx db
            = (Raise (ValidationError (InvalidOutputAmount a)), db).
Proof.
  intros H. apply createTransaction_Ret in H.
  destruct H as (sel & a & changeOuts & signatures & Hsel & _ & Hchange & _ & Hsig & ->).
  assert (sel = mkSelection 0 [] []) as ->.
  { destruct fuel; simpl in Hsel; inversion Hsel; reflexivity. }
  simpl in *. unfold changeOutput in Hchange. simpl in Hchange. subst changeOuts.
  inversion Hsig; subst. exists a. reflexivity.
Qed.

(** *** The instance satisfies the laws of the round trip *)

Section ToyLaws.
#[local] Existing Instance Toy.lib.

Lemma in_alphabet_app (s1 s2 : string) :
  forallb in_alphabet (list_ascii_of_string (s1 +:+ s2))
  = forallb in_alphabet (list_ascii_of_string s1)
    && forallb in_alphabet (list_ascii_of_string s2).
Proof.
  induction s1 as [|c s1 IH]; simpl; [reflexivity|].
  rewrite IH. apply andb_assoc.
Qed.

Lemma in_alphabet_unary (n : nat) :
  forallb in_alphabet (list_ascii_of_string (Toy.unary n)) = true.
Proof. induction n as [|n IH]; simpl; [reflexivity | exact IH]. Qed.

Lemma string_bytes_string (s : string) :
  Toy.string_of_bytes (Toy.bytes_of_string s) = s.
Proof.
  unfold Toy.string_of_bytes, Toy.bytes_of_string.
  induction s as [|c s IH]; simpl; [reflexivity|].
  rewrite ascii_of_byte_of_ascii. f_equal. exact IH.
Qed.

Lemma string_of_bytes_app (b1 b2 : bytes) :
  Toy.string_of_bytes (b1 ++ b2) = Toy.string_of_bytes b1 +:+ Toy.string_of_bytes b2.
Proof.
  unfold Toy.string_of_bytes.
  induction b1 as [|b b1 IH]; simpl; [reflexivity|]. rewrite IH. reflexivity.
Qed.

Lemma unary_inj (i j : nat) (s s' : string) :
  Toy.unary i +:+ s = Toy.unary j +:+ s' -> i = j /\ s = s'.
Proof.
  revert j. induction i as [|i IH]; intros [|j] H; simpl in H;
    try discriminate.
  - inversion H. auto.
  - inversion H as [H']. destruct (IH j H'). auto.
Qed.

Lemma toy_parentKeys (t : chain) :
  parentKeys Toy.client 0 t
  = Ok (mkKeyPair (Some (String "S" (Ledger.toyTrail t))) (String "P" (Ledger.toyTrail t))).
Proof. destruct t; reflexivity. Qed.

Lemma toy_childKeys (secret : bool) (trail : string) (index : nat) :
  forallb in_alphabet (list_ascii_of_string trail) = true ->
  getChildKeys (String (if secret then "S" else "P")%char trail) index
  = Ok (mkKeyPair (if secret then Some (String "S" (Toy.unary index +:+ trail)) else None)
                  (String "P" (Toy.unary index +:+ trail))).
Proof.
  intros H. unfold getChildKeys. simpl. unfold Toy.parse.
  rewrite H. destruct secret; reflexivity.
Qed.

Lemma toy_addressAt (t : chain) (index : nat) :
  addressAt Toy.client 0 t index = Ok (String "P" (Toy.unary index +:+ Ledger.toyTrail t)).
Proof.
  unfold addressAt. rewrite toy_parentKeys. simpl. unfold childAddress.
  rewrite (toy_childKeys false) by (destruct t; reflexivity). reflexivity.
Qed.

Lemma toy_decode (s : string) :
  forallb in_alphabet (list_ascii_of_string s) = true ->
  base58_decode s = Ok (Toy.bytes_of_string s).
Proof. intros H. unfold base58_decode. rewrite H. reflexivity. Qed.

Lemma toy_parse (secret : bool) (trail : string) :
  forallb in_alphabet (list_ascii_of_string trail) = true ->
  fromExtendedKey (String (if secret then "S" else "P")%char trail)
  = Ok (Toy.mkKey secret trail).
Proof.
  intros H. change (@fromExtendedKey Toy.lib) with Toy.parse. unfold Toy.parse.
  rewrite H. destruct secret; reflexivity.
Qed.

Lemma toy_signHash (trail message : string) :
  forallb in_alphabet (list_ascii_of_string trail) = true ->
  signHash message (String "S" trail)
  = if forallb in_alphabet (list_ascii_of_string message)
    then Ok (String "P" trail +:+ message)
    else Raise LibraryError.
Proof.
  intros Ht. unfold signHash. rewrite (toy_parse true trail Ht).
  unfold base58_decode.
  destruct (forallb in_alphabet (list_ascii_of_string message)); [|reflexivity].
  change (Ok (Toy.string_of_bytes
                (Toy.bytes_of_string (String "P" trail) ++ Toy.bytes_of_string message))
          = Ok (String "P" trail +:+ message)).
  rewrite string_of_bytes_app, !string_bytes_string. reflexivity.
Qed.

Lemma toy_verifySignature (trail message : string) :
  forallb in_alphabet (list_ascii_of_string trail) = true ->
  forallb in_alphabet (list_ascii_of_string message) = true ->
  verifySignature message (String "P" trail) (String "P" trail +:+ message) = Ok true.
Proof.
  intros Ht Hm. unfold verifySignature.
  rewrite (toy_decode message Hm), (toy_parse false trail Ht).
  rewrite toy_decode.
  - change (Ok (String.eqb
                  (Toy.string_of_bytes (Toy.bytes_of_string (String "P" trail +:+ message)))
                  (Toy.string_of_bytes (Toy.bytes_of_string (String "P" trail)
                                        ++ Toy.bytes_of_string message)))
            = Ok true).
    rewrite string_of_bytes_app, !string_bytes_string, String.eqb_refl. reflexivity.
  - rewrite in_alphabet_app, Hm.
    change (in_alphabet "P" && forallb in_alphabet (list_ascii_of_string trail) && true
            = true).
    rewrite Ht. reflexivity.
Qed.

Lemma toy_laws : WalletLaws Toy.client 0.
Proof.
  split.
  - intros t index a message sig Ha Hsig.
    rewrite toy_addressAt in Ha. inversion Ha; subst a; clear Ha.
    assert (Htrail : forallb in_alphabet
                       (list_ascii_of_string (Toy.unary index +:+ Ledger.toyTrail t)) = true).
    { rewrite in_alphabet_app, in_alphabet_unary. destruct t; reflexivity. }
    unfold signatureAt in Hsig. rewrite toy_parentKeys in Hsig.
    unfold rbind, withKey, privateKey in Hsig.
    rewrite (toy_childKeys true) in Hsig by (destruct t; reflexivity).
    rewrite (toy_signHash _ message Htrail) in Hsig.
    destruct (forallb in_alphabet (list_ascii_of_string message)) eqn:Hmsg;
      [|discriminate].
    inversion Hsig; subst sig. apply toy_verifySignature; assumption.
  - intros t1 i1 t2 i2 a H1 H2. rewrite toy_addressAt in H1, H2.
    rewrite <- H2 in H1. inversion H1 as [H].
    apply unary_inj in H. destruct H as [Hi Ht]. split; [|exact Hi].
    destruct t1, t2; try reflexivity; discriminate.
  - intros tx i. reflexivity.
Qed.

Lemma genesis_keyed : storeKeyed Ledger.genesis.
Proof.
  intros a u H. unfold Store.getUtxo, Ledger.genesis in H. simpl in H.
  apply lookup_insert_Some in H. destruct H as [[<- <-]|[_ H]]; [reflexivity|].
  rewrite lookup_empty in H. discriminate.
Qed.

Lemma built_transaction_accepted_witness :
  0 < 100
  /\ createTransaction Toy.client Ledger.genesis 4 0 Ledger.recipient 100
     = Ret Ledger.payment
  /\ inputsVerify Ledger.genesis (signedMessage Ledger.payment)
       (Tx.utxoIns Ledger.payment) (Tx.signatures Ledger.payment)
  /\ addTransaction Ledger.payment Ledger.genesis
     = (Ok tt, pooledWith Ledger.payment Ledger.genesis).
Proof.
  assert (Hbuilt : createTransaction Toy.client Ledger.genesis 4 0 Ledger.recipient 100
                   = Ret Ledger.payment) by (vm_compute; reflexivity).
  split; [lia|]. split; [exact Hbuilt|].
  apply (built_transaction_accepted Toy.client Ledger.genesis 0 toy_laws genesis_keyed
           4 Ledger.recipient 100 Ledger.payment).
  - lia.
  - exact Hbuilt.
  - apply (bool_decide_unpack _). vm_compute. reflexivity.
  - vm_compute. discriminate.
Defined.

(** C2, as the specification has it, fails on the ledger of the instance:
    the account holds a confirmed, unspent 150, and the transaction built
    for the amount 0, as the one built for 100 towards the account's own
    change key, is rejected.  It fails too where the change is rounded: out
    of one record of 2^53 + 10, a double, the change left by an amount of 7
    is 2^53 + 4 on doubles, and the test of [addTransaction] finds the
    input below the outputs. *)
Lemma built_transaction_rejected :
  (exists tx why,
      createTransaction Toy.client Ledger.genesis 4 0 Ledger.recipient 0 = Ret tx
      /\ addTransaction tx Ledger.genesis
         = (Raise (ValidationError why), Ledger.genesis))
  /\ (exists tx why,
      createTransaction Toy.client Ledger.genesis 4 0 "Pmz44zz1zzzzzzabandon" 100 = Ret tx
      /\ addTransaction tx Ledger.genesis
         = (Raise (ValidationError why), Ledger.genesis))
  /\ (Doubles.integer (Doubles.ofZ (Scenes.edge + 10)) = Some (Scenes.edge + 10)
      /\ Doubles.integer (Doubles.change [Doubles.ofZ (Scenes.edge + 10)] (Doubles.ofZ 7))
         = Some (Scenes.edge + 4)
      /\ Doubles.insufficient
           [Doubles.ofZ (Scenes.edge + 10)]
           [Doubles.ofZ 7; Doubles.change [Doubles.ofZ (Scenes.edge + 10)] (Doubles.ofZ 7)]
         = true).
Proof.
  split; [|split].
  - exists (Tx.mk (Some "ToPxbobazs") [] [Out.mk "Pxbob" 0] [] None),
           (InvalidOutputAmount "Pxbob").
    split; vm_compute; reflexivity.
  - eexists. exists (DuplicateOutputAddress "Pxmz44zz1zzzzzzabandon").
    split; vm_compute; reflexivity.
  - repeat split; vm_compute; reflexivity.
Qed.
End ToyLaws.

(** *** The balance on the ledger of the instance *)

Section BalanceOnLedger.
#[local] Existing Instance Toy.lib.


End BalanceOnLedger.

(** * Further properties of the validator, the miner and the wallet *)

(** ** The validator: what makes a transaction acceptable *)

Lemma indexOf_NoDup (l : list string) (i : nat) (x : string) :
  NoDup l -> l !! i = Some x -> indexOf l x = i.
Proof.
  intros Hnd. revert i.
  induction Hnd as [|y l Hy Hnd IH]; intros [|i] Hi; simpl in *; try discriminate.
  - injection Hi as ->. rewrite String.eqb_refl. reflexivity.
  - destruct (String.eqb_spec y x) as [->|_].
    + exfalso. apply Hy. eapply list_elem_of_lookup_2. exact Hi.
    + f_equal. apply IH. exact Hi.
Qed.

Section TransactionValidation.
Context `{L : Lib}.

(** What the first loop has seen when it runs to its end. *)
Lemma checkInputs_Ok tx message rest : forall pre seen db db',
  (forall x, x ∈ seen <-> x ∈ pre) ->
  NoDup pre ->
  checkInputs tx message seen rest db = (Ok tt, db') ->
  NoDup (pre ++ rest)
  /\ Forall (fun a => exists u sig,
               Store.getUtxo db a = Some u
               /\ Tx.signatures tx !! indexOf (Tx.utxoIns tx) a = Some sig
               /\ verifySignature message (Utxo.address u) sig = Ok true) rest.
Proof.
  induction rest as [|a rest IH]; intros pre seen db db' Hseen Hnd H.
  - rewrite app_nil_r. split; [exact Hnd | constructor].
  - simpl in H. case_bool_decide as Hin; [discriminate|].
    unfold mbind at 1, reading in H.
    destruct (Store.getUtxo db a) as [u|] eqn:Hu; [|discriminate].
    unfold mbind at 1, lift in H.
    destruct (Tx.signatures tx !! indexOf (Tx.utxoIns tx) a) as [sig|] eqn:Hsig;
      simpl in H; [|discriminate].
    destruct (verifySignature message (Utxo.address u) sig) as [[|]|e] eqn:Hv;
      simpl in H; try discriminate.
    apply (IH (pre ++ [a])) in H.
    + destruct H as [Hnd' Hall]. rewrite <- app_assoc in Hnd'. simpl in Hnd'.
      split; [exact Hnd'|]. constructor; [|exact Hall]. eauto.
    + intros x. rewrite elem_of_union, elem_of_singleton, elem_of_app, Hseen.
      rewrite list_elem_of_singleton. tauto.
    + apply NoDup_app. split; [exact Hnd|]. split; [|apply NoDup_singleton].
      intros x Hx Hxa. apply list_elem_of_singleton in Hxa. subst x.
      apply Hin, Hseen, Hx.
Qed.

(** What the second loop has seen when it runs to its end. *)
Lemma checkOutputs_Ok outs : forall seen db db',
  checkOutputs seen outs db = (Ok tt, db') ->
  NoDup (map Out.address outs)
  /\ (forall o, o ∈ outs -> Out.address o ∉ seen)
  /\ Forall (fun o => 0 < Out.amount o) outs.
Proof.
  induction outs as [|o outs IH]; intros seen db db' H.
  - split; [constructor|]. split; [|constructor]. intros o Ho. inversion Ho.
  - simpl in H. case_bool_decide as Hin; [discriminate|].
    destruct (Out.amount o <=? 0) eqn:Hamount; [discriminate|].
    apply Z.leb_gt in Hamount.
    apply IH in H. destruct H as (Hnd & Hfresh & Hpos).
    split; [|split].
    + simpl. constructor; [|exact Hnd].
      intros Hdup. apply list_elem_of_fmap in Hdup. destruct Hdup as (o' & Heq & Ho').
      apply (Hfresh o' Ho'). rewrite <- Heq.
      apply elem_of_union_l, elem_of_singleton. reflexivity.
    + intros o' Ho'. apply elem_of_cons in Ho'. destruct Ho' as [->|Ho'];
        [exact Hin|]. intros Hs. apply (Hfresh o' Ho'), elem_of_union_r, Hs.
    + constructor; assumption.
Qed.

(** An accepted transaction has passed every check, and the store is the
    one with its inputs spent and the transaction pooled. *)
Lemma addTransaction_sound tx db db' :
  addTransaction tx db = (Ok tt, db') ->
  acceptable db tx /\ db' = pooledWith tx db.
Proof.
  unfold addTransaction. intros H.
  destruct (Nat.eqb _ _) eqn:Hlen; simpl in H; [|discriminate].
  apply Nat.eqb_eq in Hlen.
  fold (signedMessage tx) in H.
  unfold mbind at 1 in H.
  destruct (checkInputs _ _ _ _ db) as [[[]|] db1] eqn:H1; try discriminate.
  pose proof (readonly_run _ _ _ _ (readonly_checkInputs _ _ _ _) H1) as ->.
  unfold mbind at 1 in H.
  destruct (checkOutputs _ _ db) as [[[]|] db2] eqn:H2; try discriminate.
  pose proof (readonly_run _ _ _ _ (readonly_checkOutputs _ _) H2) as ->.
  unfold mbind at 1 in H. rewrite sumInputs_total, sumOutputs_total in H.
  simpl in H.
  destruct (_ <? _) eqn:Hlt; [discriminate|]. apply Z.ltb_ge in Hlt.
  unfold mbind, writing in H. rewrite spendInputs_run in H.
  injection H as <-.
  apply (checkInputs_Ok tx _ _ []) in H1;
    [|intros x; split; intros Hx; [set_solver | inversion Hx] | constructor].
  destruct H1 as [Hnd Hall]. simpl in Hnd.
  apply checkOutputs_Ok in H2. destruct H2 as (Hnd2 & _ & Hpos).
  split; [|reflexivity].
  split; [exact Hlen|]. split; [exact Hnd|]. split; [|auto].
  apply Forall2_same_length_lookup_2; [exact Hlen|].
  intros i a sig Ha Hs.
  rewrite Forall_forall in Hall.
  destruct (Hall a) as (u & sig' & Hu & Hsig' & Hv).
  { eapply list_elem_of_lookup_2. exact Ha. }
  rewrite (indexOf_NoDup _ _ _ Hnd Ha) in Hsig'.
  assert (sig' = sig) as -> by congruence.
  exists u. split; assumption.
Qed.

(** A transaction that passes every check is accepted. *)
Lemma addTransaction_complete tx db :
  acceptable db tx -> addTransaction tx db = (Ok tt, pooledWith tx db).
Proof.
  intros (Hlen & Hnd & Hver & Hnd2 & Hpos & Hfunds).
  rewrite addTransaction_checked.
  - destruct (_ <? _) eqn:Hlt; [apply Z.ltb_lt in Hlt; lia | reflexivity].
  - exact Hlen.
  - apply (checkInputs_verified db tx (signedMessage tx) [] (Tx.utxoIns tx)
             [] (Tx.signatures tx) ∅); auto.
    intros x. split; intros Hx; [set_solver | inversion Hx].
  - apply checkOutputs_distinct; auto. intros o _. set_solver.
Qed.

(** X1. On a transaction whose amounts are integers that the two totals add
    up without rounding (the magnitudes of the amounts of the records its
    inputs name, and those of its output amounts, add up to at most 2^53),
    [addTransaction] accepts exactly when the transaction has as many
    signatures as inputs, names no input twice, every input has a record
    under whose address the signature at the same position verifies the
    hash of the transaction without signatures, no output address occurs
    twice, every output amount is positive, and the amounts of the inputs
    cover those of the outputs.  The store is then the one with the inputs
    spent by the transaction and the transaction pooled, unconfirmed. *)
Theorem transaction_accepted_iff tx db db' :
  exactSum (inputAmounts db (Tx.utxoIns tx)) ->
  exactSum (map Out.amount (Tx.utxoOuts tx)) ->
  (addTransaction tx db = (Ok tt, db')
   <-> acceptable db tx /\ db' = pooledWith tx db).
Proof.
  intros _ _. split.
  - apply addTransaction_sound.
  - intros [Hok ->]. apply addTransaction_complete. exact Hok.
Qed.

(** X2. When [addTransaction] raises a [ValidationError], or lets through
    an exception of the signature libraries, it has written nothing: the
    checks that raise them all come before the first write, and the store
    is as it was. *)
Theorem rejected_transaction_writes_nothing tx db e db' :
  e = LibraryError \/ (exists why, e = ValidationError why) ->
  addTransaction tx db = (Raise e, db') ->
  db' = db.
Proof.
  intros _ H. eapply addTransaction_raise_unchanged; [exact H | discriminate].
Qed.
End TransactionValidation.

Section TransactionIdentity.
Context `{L : Lib}.

Lemma signedMessage_set_id (tx : Tx.t) (i : option string) :
  hashIgnoresId -> signedMessage (Tx.set_id i tx) = signedMessage tx.
Proof.
  intros Hid. unfold signedMessage.
  exact (Hid (Tx.set_signatures [] tx) i).
Qed.

(** X3. [addTransaction] never compares the [_id] of a transaction with its
    hash: when the hash does not cover the [_id], a transaction accepted
    under one [_id] is accepted under any other, and is pooled, and spends
    its inputs, under the [_id] it was submitted with. *)
Theorem transaction_id_not_checked tx i db db' :
  hashIgnoresId ->
  addTransaction tx db = (Ok tt, db') ->
  addTransaction (Tx.set_id i tx) db = (Ok tt, pooledWith (Tx.set_id i tx) db).
Proof.
  intros Hid H. apply addTransaction_sound in H.
  destruct H as [(Hlen & Hnd & Hver & Hnd2 & Hpos & Hfunds) _].
  apply addTransaction_complete. unfold acceptable.
  rewrite signedMessage_set_id by exact Hid.
  destruct tx; simpl in *. auto 10.
Qed.

Lemma libraryFault_bind {A B} (r : result A) (k : A -> result B) :
  libraryFault r -> (forall a, libraryFault (k a)) -> libraryFault (rbind r k).
Proof.
  intros Hr Hk e. destruct r as [a|e']; simpl.
  - exact (Hk a e).
  - intros H. apply (Hr e). congruence.
Qed.

Lemma libraryFault_Ok {A} (a : A) : libraryFault (Ok a).
Proof. intros e H. discriminate. Qed.

Lemma libraryFault_base58_decode (s : string) :
  PlainLibrary -> libraryFault (base58_decode s).
Proof.
  intros P. unfold base58_decode.
  destruct (forallb _ _); [exact (plain_base58_decode_checked P s)|].
  intros e H. congruence.
Qed.

(** X4. A signature with a character outside the base58 alphabet does not
    make [addTransaction] raise a [ValidationError]: when the counts match
    and the first input has a record, the exception of the decoder leaves
    [addTransaction] as it is, and the store is unchanged. *)
Theorem malformed_signature_raises tx db a rest u sig sigs :
  PlainLibrary ->
  Tx.utxoIns tx = a :: rest ->
  Tx.signatures tx = sig :: sigs ->
  length rest = length sigs ->
  Store.getUtxo db a = Some u ->
  forallb in_alphabet (list_ascii_of_string sig) = false ->
  addTransaction tx db = (Raise LibraryError, db).
Proof.
  intros P Hins Hsigs Hlen Hu Hbad. unfold addTransaction.
  rewrite Hins, Hsigs. simpl. rewrite Hlen, Nat.eqb_refl. simpl.
  case_bool_decide as Hin; [set_solver|].
  unfold mbind at 1. unfold mbind at 1. unfold reading. rewrite Hu.
  unfold mbind at 1. unfold lift. rewrite Hins, Hsigs. simpl.
  rewrite String.eqb_refl. simpl.
  unfold verifySignature.
  destruct (base58_decode (getTransactionHash _)) as [m|e] eqn:Hm; simpl.
  - unfold base58_decode at 1. rewrite Hbad. reflexivity.
  - rewrite (libraryFault_base58_decode _ P e Hm). reflexivity.
Qed.
End TransactionIdentity.

(** ** The validator: what makes a block acceptable *)

Section BlockValidation.
Context `{L : Lib}.
Variable this : Server.t.

Lemma getBlock_id db p pb : Store.getBlock db p = Some pb -> Block._id pb = Some p.
Proof.
  unfold Store.getBlock. intros H. apply find_some in H. destruct H as [_ H].
  case_bool_decide; [assumption | discriminate].
Qed.

Lemma fetchTransactions_resolved db transactions fetched :
  resolved db transactions fetched ->
  fetchTransactions transactions db = (Ok fetched, db).
Proof.
  induction 1 as [|r tx refs fetched Hr _ IH]; simpl; [reflexivity|].
  unfold mbind at 1, reading. rewrite Hr. unfold mbind. rewrite IH. reflexivity.
Qed.

Lemma addBlock_previous block coinbase transactions db db' :
  addBlock this block coinbase transactions db = (Ok tt, db') ->
  truthy (Block.previous block) = true ->
  is_Some (Store.getBlock db (default "" (Block.previous block))).
Proof.
  unfold addBlock. intros H Ht.
  destruct (startsWith _ _); simpl in H; [|discriminate].
  rewrite Ht in H. unfold mbind at 1 in H. unfold mbind at 1, reading in H.
  destruct (Store.getBlock db _) as [pb|]; [eauto | discriminate].
Qed.

Lemma addBlock_sound block coinbase transactions db db' :
  addBlock this block coinbase transactions db = (Ok tt, db') ->
  acceptableBlock this db block coinbase transactions
  /\ db' = blockCommitted block coinbase transactions db.
Proof.
  intros H. pose proof (addBlock_previous _ _ _ _ _ H) as Hprev.
  apply addBlock_accepted in H.
  destruct H as (Hpre & (fetched & Hf & Hroot) & Hcb & ->).
  split; [|reflexivity]. split; [exact Hpre|]. split; [exact Hprev|].
  exists fetched. split; [eapply fetchTransactions_Ret; exact Hf|]. split.
  - unfold recomputedRoot. simpl. rewrite Hroot, map_map. reflexivity.
  - apply badCoinbase_false. exact Hcb.
Qed.

Lemma addBlock_complete block coinbase transactions db :
  acceptableBlock this db block coinbase transactions ->
  addBlock this block coinbase transactions db
  = (Ok tt, blockCommitted block coinbase transactions db).
Proof.
  intros (Hpre & Hprev & fetched & Hf & Hroot & Hcb). unfold addBlock.
  rewrite Hpre. simpl. unfold mbind at 1.
  match goal with
  | |- context [match ?m db with _ => _ end] =>
      assert (m db = (Ok tt, db)) as Hp
  end.
  { destruct (truthy (Block.previous block)) eqn:Ht; [|reflexivity].
    destruct (Hprev eq_refl) as [pb Hpb]. simpl.
    unfold mbind, reading. rewrite Hpb.
    apply getBlock_id in Hpb.
    destruct (Block.previous block) as [p|]; [|discriminate]. simpl in Hpb.
    rewrite bool_decide_true by exact Hpb. reflexivity. }
  rewrite Hp. clear Hp.
  unfold mbind at 1. rewrite (fetchTransactions_resolved _ _ _ Hf).
  assert (String.eqb (Block.root block)
            (getMerkleRoot (Some (getTransactionHash coinbase)
                            :: map Some (map getTransactionHash fetched))) = true) as ->.
  { apply String.eqb_eq. rewrite Hroot. unfold recomputedRoot. simpl.
    rewrite map_map. reflexivity. }
  simpl. apply badCoinbase_false in Hcb. rewrite Hcb.
  reflexivity.
Qed.

(** X5. [addBlock] accepts a block exactly when its hash starts with the
    difficulty prefix, its [previous] id is falsy or the id of some stored
    block (not necessarily the latest), every reference resolves to a
    stored transaction, its root is the Merkle root of the hashes of the
    coinbase and of the resolved transactions in the order given, and the
    coinbase has no input and one output of the reward.  The store then
    holds the block, the listed transactions confirmed and the coinbase. *)
Theorem block_accepted_iff block coinbase transactions db db' :
  addBlock this block coinbase transactions db = (Ok tt, db')
  <-> acceptableBlock this db block coinbase transactions
      /\ db' = blockCommitted block coinbase transactions db.
Proof.
  split.
  - apply addBlock_sound.
  - intros [Hok ->]. apply addBlock_complete. exact Hok.
Qed.

(** X6. When [addBlock] raises a [ValidationError] it has written nothing:
    the five checks that raise one all come before the block is saved, and
    the store is as it was. *)
Theorem rejected_block_writes_nothing block coinbase transactions db why db' :
  addBlock this block coinbase transactions db = (Raise (ValidationError why), db') ->
  db' = db.
Proof.
  intros H. destruct (addBlock_rejected _ _ _ _ _ _ _ H) as [Habs | [-> _]].
  - discriminate.
  - reflexivity.
Qed.
End BlockValidation.

(** ** The nonce search: the first nonce that seals *)

Section NonceSearch.
Context `{L : Lib}.

(** X7. [findNonce] returns a block exactly when one of the nonces it can
    try gives a hash with the difficulty prefix, and the block it returns
    is the candidate at the first such nonce, written in decimal digits:
    every smaller nonce fails, the [_id] is the hash at that nonce, and
    [previous] and [root] are those of the candidate. *)
Theorem findNonce_first fuel block difficulty b :
  findNonce fuel block difficulty = Ret b
  <-> exists k, (k < fuel)%nat
        /\ startsWith (getBlockHash (withNonce block k)) (repeat1 difficulty) = true
        /\ (forall j, (j < k)%nat ->
              startsWith (getBlockHash (withNonce block j)) (repeat1 difficulty) = false)
        /\ b = Block.mk (Some (getBlockHash (withNonce block k)))
                        (Block.previous block) (Block.root block)
                        (Some (base58_encode (nonceArray k))).
Proof.
  unfold findNonce. split.
  - intros H. apply findNonce_from_Ret in H.
    destruct H as (k & Hk & -> & Hok & Hfirst).
    exists k. split; [lia|]. split; [exact Hok|]. split; [|reflexivity].
    intros j Hj. apply Hfirst. lia.
  - intros (k & Hk & Hok & Hfirst & ->).
    destruct (findNonce_from_found fuel 0 block (repeat1 difficulty) k) as [b' Hb'];
      [lia | lia | exact Hok |].
    rewrite Hb'. apply findNonce_from_Ret in Hb'.
    destruct Hb' as (k' & Hk' & -> & Hok' & Hfirst').
    assert (k' = k) as ->.
    { destruct (Nat.lt_trichotomy k' k) as [Hlt | [Heq | Hgt]]; [|exact Heq|].
      - rewrite (Hfirst k' Hlt) in Hok'. discriminate.
      - rewrite (Hfirst' k) in Hok by lia. discriminate. }
    reflexivity.
Qed.
End NonceSearch.

(** ** The miner and the validator *)

Section MinedBlocks.
Context `{L : Lib}.

Lemma refId_refOf (i : option string) : refId (refOf i) = i.
Proof. destruct i; reflexivity. Qed.

(** The latest block is a stored block. *)
Lemma tip_stored db p : tip db = Some p -> is_Some (Store.getBlock db p).
Proof.
  unfold tip, Store.getBlocks, Store.page, Store.getBlock. simpl.
  intros H.
  destruct (rev (blocks db)) as [|b bs] eqn:Hrev; simpl in H; [discriminate|].
  destruct (List.find _ (blocks db)) as [pb|] eqn:Hfind; [eauto|].
  exfalso.
  assert (In b (blocks db)) as Hin.
  { apply in_rev. rewrite Hrev. left. reflexivity. }
  pose proof (find_none _ _ Hfind b Hin) as Hno. simpl in Hno.
  rewrite bool_decide_true in Hno by exact H. discriminate.
Qed.

(** The pooled transactions are what their ids resolve to. *)
Lemma pool_resolved db :
  poolKeyed db -> resolved db (map refOf (map Tx._id (pool db))) (pool db).
Proof.
  unfold poolKeyed, resolved. intros H.
  induction H as [|tx txs [_ Htx] _ IH]; simpl; constructor; [|exact IH].
  rewrite refId_refOf. exact Htx.
Qed.

Lemma pool_hashes db :
  poolKeyed db ->
  map Tx._id (pool db) = map (fun tx => Some (getTransactionHash tx)) (pool db).
Proof.
  unfold poolKeyed. intros H.
  induction H as [|tx txs [Htx _] _ IH]; simpl; [reflexivity|].
  rewrite Htx at 1. rewrite IH. reflexivity.
Qed.

(** X8. What [mine] returns, [addBlock] accepts: when the hashes of
    transactions and blocks do not cover the [_id], every pooled transaction
    is stored under its hash, and the server has the difficulty and the
    reward of the client, the block, the coinbase and the ids that [mine]
    returned pass every check of [addBlock] on the same store. *)
Theorem mined_block_accepted client server db fuel account r :
  hashIgnoresId ->
  blockHashIgnoresId ->
  poolKeyed db ->
  Server.difficulty server = Client.difficulty client ->
  Server.amount server = Client.amount client ->
  mine client db fuel account = Ret r ->
  let transactions := map refOf (Mined.transactions r) in
  addBlock server (Mined.block r) (Mined.coinbase r) transactions db
  = (Ok tt, blockCommitted (Mined.block r) (Mined.coinbase r) transactions db).
Proof.
  intros Hid Hbid Hpool Hdiff Hamount H transactions.
  apply mine_Ret in H.
  destruct H as (parent & a & k & _ & _ & Hcb & Htxs & Hsealed & Hblock).
  simpl in Hcb, Hsealed, Hblock.
  apply addBlock_complete. unfold acceptableBlock.
  rewrite Hblock, Hdiff. rewrite (Hbid _ _).
  split; [exact Hsealed|]. split.
  - simpl. destruct (tip db) as [p|] eqn:Htip; [|discriminate].
    intros _. simpl. apply tip_stored. exact Htip.
  - exists (pool db). subst transactions. rewrite Htxs.
    split; [apply pool_resolved; exact Hpool|]. split.
    + simpl. unfold recomputedRoot. simpl.
      rewrite Hcb at 2. rewrite (Hid _ _).
      rewrite Hcb at 1. simpl. rewrite (pool_hashes _ Hpool). reflexivity.
    + rewrite Hcb, Hamount. split; [reflexivity|]. eexists. reflexivity.
Qed.
End MinedBlocks.

(** ** The configuration: zero gives way to the default *)

Section Configuration.
Context `{L : Lib}.

(** X9. A configured 0 switches neither the proof of work nor the reward
    off.  For a configuration whose difficulty is missing or a natural
    number and whose amount is missing or an integer, a difficulty or an
    amount of 0 gives way to the default in the constructor, so that every
    block the server accepts has a hash that starts with 1, and a coinbase
    whose one output pays the configured amount when it is not 0, and 100
    otherwise. *)
Theorem zero_is_not_configurable config block coinbase transactions db db' :
  addBlock (DotcoinServer config) block coinbase transactions db = (Ok tt, db') ->
  (exists rest, getBlockHash block = String "1" rest)
  /\ exists address reward,
       Tx.utxoOuts coinbase = [Out.mk address reward]
       /\ reward <> 0
       /\ (Config.amount config = Some reward
           \/ (reward = 100 /\ (Config.amount config = None
                                \/ Config.amount config = Some 0))).
Proof.
  intros H. apply addBlock_sound in H.
  destruct H as [(Hpre & _ & fetched & _ & _ & _ & address & Hout) _]. split.
  - apply startsWith_spec in Hpre. destruct Hpre as [rest Hrest].
    unfold DotcoinServer in Hrest. simpl in Hrest.
    destruct (Config.difficulty config) as [[|d]|]; simpl in Hrest; eauto.
  - exists address, (Server.amount (DotcoinServer config)).
    split; [exact Hout|]. unfold DotcoinServer. simpl.
    destruct (Config.amount config) as [[|p|p]|]; simpl;
      (split; [lia || discriminate | auto]).
Qed.
End Configuration.

(** ** The wallet: which records a transaction spends *)

Lemma sumAmounts_snoc (us : list Utxo.t) (u : Utxo.t) :
  sumAmounts (us ++ [u]) = sumAmounts us + Utxo.amount u.
Proof.
  unfold sumAmounts. induction us as [|v us IH]; simpl; [lia|]. rewrite IH. lia.
Qed.

Lemma selectionSound_empty (db : Db) (amount : Z) :
  selectionSound db amount (mkSelection 0 [] []).
Proof.
  split; [reflexivity|]. split; [reflexivity|]. split; [constructor|].
  intros earlier last H. simpl in H. destruct earlier; discriminate.
Qed.

(** The [for] loop keeps a selection sound. *)
Lemma selectFrom_sound (db : Db) (amount : Z) (receiveAddress : string) (k : nat)
    (us : list Utxo.t) : forall sel,
  (forall u, u ∈ us -> Store.getUtxo db (Utxo.address u) = Some u) ->
  selectionSound db amount sel ->
  selectionSound db amount (selectFrom amount receiveAddress k us sel).
Proof.
  induction us as [|u us IH]; intros sel Hus Hsel; simpl; [exact Hsel|].
  assert (Hrest : forall v, v ∈ us -> Store.getUtxo db (Utxo.address v) = Some v).
  { intros v Hv. apply Hus. right. exact Hv. }
  destruct (truthy (Utxo.txIn u)) eqn:Hspent; [apply IH; assumption|].
  destruct (truthy (Utxo.block u)) eqn:Hconf; simpl; [|apply IH; assumption].
  destruct (amount <=? total sel) eqn:Hreached; [exact Hsel|].
  apply Z.leb_gt in Hreached.
  apply IH; [exact Hrest|].
  destruct Hsel as (Hins & Htotal & Hall & Hmin).
  split; [|split; [|split]]; simpl.
  - rewrite map_app, Hins. reflexivity.
  - rewrite map_app. simpl. rewrite sumAmounts_snoc, Htotal. reflexivity.
  - apply Forall_app. split; [exact Hall|]. constructor; [|constructor]. simpl.
    split; [apply Hus; left|]. unfold spendable. rewrite Hspent, Hconf. reflexivity.
  - intros earlier last Heq. apply app_inj_tail in Heq. destruct Heq as [<- _].
    rewrite <- Htotal. exact Hreached.
Qed.

Section Selecting.
Context `{L : Lib}.
Variable this : Client.t.
Variable db : Db.
Variable account : N.
Hypothesis keyed : storeKeyed db.

(** The [while] loop keeps a selection sound. *)
Lemma selectUtxos_sound fuel amount : forall k sel sel',
  selectionSound db amount sel ->
  selectUtxos this db fuel account amount k sel = Ret sel' ->
  selectionSound db amount sel'.
Proof.
  induction fuel as [|fuel IH]; intros k sel sel' Hsel H.
  - simpl in H. destruct (total sel <? amount); [discriminate|].
    injection H as <-. exact Hsel.
  - rewrite selectUtxos_step in H.
    destruct (total sel <? amount); [|injection H as <-; exact Hsel].
    destruct (addressesAt this account k) as [[ra ca]|] eqn:Ha; simpl in H;
      [|discriminate].
    destruct (_ && _); [injection H as <-; exact Hsel|].
    eapply IH; [|exact H]. apply selectFrom_sound; [|exact Hsel].
    intros u Hu. apply elem_of_app in Hu.
    destruct Hu as [Hu|Hu];
      match type of Hu with
      | _ ∈ toArray (Store.getUtxo db ?a) =>
          destruct (Store.getUtxo db a) as [v|] eqn:Hv; simpl in Hu; [|inversion Hu];
          apply list_elem_of_singleton in Hu; subst v;
          rewrite (keyed _ _ Hv); exact Hv
      end.
Qed.

Lemma inputTotal_selected (selected : list Selected) :
  Forall (fun s => Store.getUtxo db (Utxo.address (utxo s)) = Some (utxo s)
                   /\ spendable (utxo s) = true) selected ->
  inputTotal db (map (fun s => Utxo.address (utxo s)) selected)
  = sumAmounts (map utxo selected).
Proof.
  unfold inputTotal, sumAmounts. intros H. do 2 f_equal.
  induction H as [|s l [Hu _] _ IH]; simpl; [reflexivity|].
  rewrite Hu. simpl. f_equal. exact IH.
Qed.

(** What [createTransaction] returns, in terms of a sound selection. *)
Lemma createTransaction_sound fuel address amount tx :
  createTransaction this db fuel account address amount = Ret tx ->
  exists sel recipientAddress changeOuts,
    selectionSound db amount sel
    /\ amount <= total sel
    /\ changeOuts = (if 0 <? total sel - amount
                     then changeOuts else [])
    /\ outputTotal changeOuts = total sel - amount
    /\ Tx.utxoIns tx = utxoIns sel
    /\ Tx.utxoOuts tx = Out.mk recipientAddress amount :: changeOuts
    /\ length (Tx.signatures tx) = length (Tx.utxoIns tx)
    /\ Tx.block tx = None
    /\ Tx._id tx = Some (getTransactionHash (Tx.set_id None tx)).
Proof.
  intros H. apply createTransaction_Ret in H.
  destruct H as (sel & a & changeOuts & signatures & Hsel & Hle & Hchange & _ & Hsig & ->).
  simpl in Hsig.
  pose proof (selectUtxos_sound _ _ _ _ _ (selectionSound_empty db amount) Hsel) as Hsound.
  exists sel, a, changeOuts. split; [exact Hsound|]. split; [exact Hle|].
  unfold changeOutput in Hchange.
  destruct (0 <? total sel - amount) eqn:Hpos.
  - destruct Hchange as (cp & c & _ & _ & ->). split; [reflexivity|].
    split; [unfold outputTotal; simpl; lia|].
    repeat split. simpl.
    apply signInputs_Ok, Forall2_length in Hsig. rewrite <- Hsig.
    destruct Hsound as (-> & _). rewrite length_map. reflexivity.
  - subst changeOuts. apply Z.ltb_ge in Hpos. split; [reflexivity|].
    split; [unfold outputTotal; simpl; lia|].
    repeat split. simpl.
    apply signInputs_Ok, Forall2_length in Hsig. rewrite <- Hsig.
    destruct Hsound as (-> & _). rewrite length_map. reflexivity.
Qed.

(** X10. On a store that keeps every record under its own address, a
    transaction [createTransaction] returns, whose amounts are integers
    that add up without rounding (the magnitudes of the amount and of the
    amounts of the records spent add up to at most 2^53), moves value
    without creating or burning any: its outputs add up to the amounts of
    the records its inputs name, the first output pays the amount asked for
    and the rest, empty exactly when nothing is left, returns the
    difference; it has one signature per input, no block, and the hash of
    its signed form as [_id]. *)
Theorem built_transaction_conserves_value fuel address amount tx :
  createTransaction this db fuel account address amount = Ret tx ->
  exactSum (amount :: inputAmounts db (Tx.utxoIns tx)) ->
  outputTotal (Tx.utxoOuts tx) = inputTotal db (Tx.utxoIns tx)
  /\ (exists recipientAddress rest,
        Tx.utxoOuts tx = Out.mk recipientAddress amount :: rest
        /\ outputTotal rest = inputTotal db (Tx.utxoIns tx) - amount
        /\ (rest = [] <-> inputTotal db (Tx.utxoIns tx) = amount))
  /\ length (Tx.signatures tx) = length (Tx.utxoIns tx)
  /\ Tx.block tx = None
  /\ Tx._id tx = Some (getTransactionHash (Tx.set_id None tx)).
Proof.
  intros H _. apply createTransaction_sound in H.
  destruct H as (sel & a & changeOuts & Hsound & Hle & Hshape & Hchange
                 & -> & -> & Hlen & Hblock & Hid).
  assert (Htotal : inputTotal db (utxoIns sel) = total sel).
  { destruct Hsound as (-> & -> & Hall & _). apply inputTotal_selected. exact Hall. }
  rewrite Htotal. split; [|split; [|auto]].
  - unfold outputTotal in *. simpl. lia.
  - exists a, changeOuts. split; [reflexivity|]. split; [exact Hchange|].
    destruct (0 <? total sel - amount) eqn:Hpos.
    + apply Z.ltb_lt in Hpos. split; [|lia].
      intros ->. unfold outputTotal in Hchange. simpl in Hchange. lia.
    + apply Z.ltb_ge in Hpos. split; [lia | intros _; exact Hshape].
Qed.

(** X11. On a store that keeps every record under its own address,
    [createTransaction] spends only what the store holds as unspent and
    confirmed: every input of the transaction it returns names a record of
    the store whose [txIn] is falsy and whose [block] is truthy. *)
Theorem built_transaction_inputs_spendable fuel address amount tx :
  createTransaction this db fuel account address amount = Ret tx ->
  Forall (fun a => exists u, Store.getUtxo db a = Some u /\ spendable u = true)
         (Tx.utxoIns tx).
Proof.
  intros H. apply createTransaction_sound in H.
  destruct H as (sel & a & changeOuts & Hsound & _ & _ & _ & -> & _).
  destruct Hsound as (-> & _ & Hall & _).
  apply Forall_fmap. eapply Forall_impl; [exact Hall|].
  intros s [Hu Hs]. exists (utxo s). auto.
Qed.

(** X12. On a store that keeps every record under its own address, and on
    integer amounts that add up without rounding (the magnitudes of the
    amounts of the records spent add up to at most 2^53),
    [createTransaction] selects no record it does not need: the records
    named by the inputs before the last one do not add up to the amount. *)
Theorem built_transaction_inputs_minimal fuel address amount tx earlier last :
  createTransaction this db fuel account address amount = Ret tx ->
  Tx.utxoIns tx = earlier ++ [last] ->
  exactSum (inputAmounts db (Tx.utxoIns tx)) ->
  inputTotal db earlier < amount.
Proof.
  intros H Hins _. apply createTransaction_sound in H.
  destruct H as (sel & a & changeOuts & Hsound & _ & _ & _ & Htx & _).
  rewrite Htx in Hins. clear Htx.
  destruct Hsound as (Hsel & _ & Hall & Hmin). rewrite Hsel in Hins.
  revert Hins Hall Hmin. generalize (selectedUtxos sel). intros selected.
  destruct selected as [|s l _] using rev_ind; intros Hins Hall Hmin.
  - destruct earlier; discriminate.
  - rewrite map_app in Hins. simpl in Hins.
    apply app_inj_tail in Hins. destruct Hins as [<- _].
    apply Forall_app in Hall. destruct Hall as [Hall _].
    rewrite inputTotal_selected by exact Hall.
    apply (Hmin _ _ eq_refl).
Qed.
End Selecting.

(** ** The wallet: the balance and what can be paid *)

Lemma tally_usable (us : list Utxo.t) : forall totals,
  fst (fold_left tally us totals)
  = fst totals + sumAmounts (List.filter spendable us).
Proof.
  unfold sumAmounts.
  induction us as [|u us IH]; intros [tu tp]; simpl; [lia|].
  unfold spendable at 1.
  destruct (truthy (Utxo.txIn u)); simpl; [rewrite IH; reflexivity|].
  destruct (truthy (Utxo.block u)); simpl; rewrite IH; simpl; lia.
Qed.

(** The [for] loop either reaches the amount or takes every spendable
    record. *)
Lemma selectFrom_total (amount : Z) (receiveAddress : string) (k : nat)
    (us : list Utxo.t) : forall sel,
  amount <= total (selectFrom amount receiveAddress k us sel)
  \/ total (selectFrom amount receiveAddress k us sel)
     = total sel + sumAmounts (List.filter spendable us).
Proof.
  unfold sumAmounts.
  induction us as [|u us IH]; intros sel; simpl; [right; lia|].
  unfold spendable at 1.
  destruct (truthy (Utxo.txIn u)); simpl; [apply IH|].
  destruct (truthy (Utxo.block u)); simpl; [|apply IH].
  destruct (amount <=? total sel) eqn:Hreached.
  - left. apply Z.leb_le. exact Hreached.
  - match goal with
    | |- context [selectFrom _ _ _ us ?s] => destruct (IH s) as [Hle|Heq]
    end; [left; exact Hle|].
    right. rewrite Heq. simpl. lia.
Qed.

Section Spendability.
Context `{L : Lib}.
Variable this : Client.t.
Variable db : Db.
Variable account : N.

Lemma recordsAt_Ok k records :
  recordsAt this db account k = Ok records ->
  exists ra ca,
    addressesAt this account k = Ok (ra, ca)
    /\ records = toArray (Store.getUtxo db ra) ++ toArray (Store.getUtxo db ca).
Proof.
  unfold recordsAt.
  destruct (addressesAt this account k) as [[ra ca]|]; simpl; [|discriminate].
  intros H. injection H as <-. eauto.
Qed.

(** The selection loop, where the balance loop goes on: with the same
    totals, or the amount already reached. *)
Lemma selectUtxos_covers fuel amount : forall k totals sel b,
  getBalance_from this db fuel account k totals = Ret b ->
  amount <= total sel \/ total sel = fst totals ->
  amount <= usable b ->
  exists sel', selectUtxos this db fuel account amount k sel = Ret sel'
               /\ amount <= total sel'.
Proof.
  induction fuel as [|fuel IH]; intros k totals sel b Hb Hinv Hcover.
  - discriminate.
  - rewrite getBalance_step in Hb. rewrite selectUtxos_step.
    destruct (total sel <? amount) eqn:Hlt;
      [|apply Z.ltb_ge in Hlt; exists sel; auto].
    apply Z.ltb_lt in Hlt. destruct Hinv as [Hle|Heq]; [lia|].
    destruct (recordsAt this db account k) as [records|] eqn:Hrec; simpl in Hb;
      [|discriminate].
    apply recordsAt_Ok in Hrec. destruct Hrec as (ra & ca & -> & ->).
    change (obind (finished (Ok (ra, ca))) ?k) with (k (ra, ca)). cbv beta.
    change (fst (ra, ca)) with ra. change (snd (ra, ca)) with ca.
    remember (toArray (Store.getUtxo db ra) ++ toArray (Store.getUtxo db ca))
      as records eqn:Hrecords. clear Hrecords.
    destruct records as [|u us].
    + injection Hb as <-. simpl in Hcover. lia.
    + cbv zeta. change (Nat.eqb (length (u :: us)) 0) with false.
      rewrite andb_false_l.
      change (getBalance_from this db fuel account (S k)
                (fold_left tally (u :: us) totals) = Ret b) in Hb.
      eapply IH; [exact Hb| |exact Hcover].
      destruct (selectFrom_total amount ra k (u :: us) sel) as [Hle|Htot];
        [left; exact Hle|].
      right. rewrite Htot, tally_usable, Heq. reflexivity.
Qed.

(** X13. What [getBalance] reports as usable, [createTransaction] finds:
    when the balance loop returns a usable total that covers the amount, the
    selection loop, on the same store and with the same fuel, ends with
    inputs whose total covers the amount, so that the check that throws
    [InsufficientFunds] passes. *)
Theorem usable_balance_is_spendable fuel amount b :
  getBalance this db fuel account = Ret b ->
  amount <= usable b ->
  exists sel,
    selectUtxos this db fuel account amount 0 (mkSelection 0 [] []) = Ret sel
    /\ (total sel <? amount) = false.
Proof.
  intros Hb Hcover.
  destruct (selectUtxos_covers fuel amount 0%nat (0, 0) (mkSelection 0 [] []) b)
    as (sel & Hsel & Hle); auto.
  exists sel. split; [exact Hsel|]. apply Z.ltb_ge. exact Hle.
Qed.

(** A round of the selection loop, on the records of its child index. *)
Lemma selectUtxos_round fuel amount k sel records :
  recordsAt this db account k = Ok records ->
  total sel < amount ->
  exists receiveAddress,
    selectUtxos this db (S fuel) account amount k sel
    = if Nat.eqb (length records) 0 && Nat.ltb 0 k then Ret sel
      else selectUtxos this db fuel account amount (S k)
             (selectFrom amount receiveAddress k records sel).
Proof.
  intros Hrec Hlt. apply recordsAt_Ok in Hrec.
  destruct Hrec as (ra & ca & Ha & ->). exists ra.
  rewrite selectUtxos_step.
  replace (total sel <? amount) with true by (symmetry; apply Z.ltb_lt; exact Hlt).
  rewrite Ha. reflexivity.
Qed.

Lemma selectUtxos_reached fuel amount k sel :
  amount <= total sel ->
  selectUtxos this db fuel account amount k sel = Ret sel.
Proof.
  intros Hle. apply Z.ltb_ge in Hle. destruct fuel; simpl; rewrite Hle; reflexivity.
Qed.

(** X14. The balance loop stops at the first child index without a record,
    the selection loop only at the second: when index 0 has no record,
    [getBalance] reports 0 and 0 whatever the later indices hold, while
    [createTransaction] still selects among the records of index 1 and
    covers any amount that the spendable ones cover. *)
Theorem balance_stops_before_selection fuel amount records :
  recordsAt this db account 0 = Ok [] ->
  recordsAt this db account 1 = Ok records ->
  0 < amount <= sumAmounts (List.filter spendable records) ->
  getBalance this db (S fuel) account = Ret (mkBalance 0 0)
  /\ exists sel,
       selectUtxos this db (S (S fuel)) account amount 0 (mkSelection 0 [] []) = Ret sel
       /\ amount <= total sel
       /\ sublist (map utxo (selectedUtxos sel)) records.
Proof.
  intros H0 H1 [Hpos Hcover]. split.
  - unfold getBalance. rewrite getBalance_step, H0. reflexivity.
  - destruct (selectUtxos_round (S fuel) amount 0 (mkSelection 0 [] []) [] H0 Hpos)
      as [ra0 ->].
    change (selectFrom amount ra0 0 [] (mkSelection 0 [] [])) with (mkSelection 0 [] []).
    change (Nat.eqb (length (@nil Utxo.t)) 0 && Nat.ltb 0 0) with false. cbv iota.
    destruct (selectUtxos_round fuel amount 1 (mkSelection 0 [] []) records H1 Hpos)
      as [ra1 ->].
    destruct records as [|u us];
      [unfold sumAmounts in Hcover; simpl in Hcover; lia|].
    change (Nat.eqb (length (u :: us)) 0) with false. rewrite andb_false_l.
    destruct (selectFrom_picked amount ra1 1 (u :: us) (mkSelection 0 [] []))
      as (picked & Hsub & Hsel).
    exists (selectFrom amount ra1 1 (u :: us) (mkSelection 0 [] [])).
    assert (Hle : amount <= total (selectFrom amount ra1 1 (u :: us) (mkSelection 0 [] []))).
    { destruct (selectFrom_total amount ra1 1 (u :: us) (mkSelection 0 [] []))
        as [Hle|Htot]; [exact Hle|]. rewrite Htot. simpl total. lia. }
    split; [apply selectUtxos_reached; exact Hle|]. split; [exact Hle|].
    rewrite Hsel. simpl selectedUtxos. rewrite map_map. simpl. rewrite map_id.
    exact Hsub.
Qed.

(** X15. An account without a record at the child indices 0 and 1 cannot
    pay: for every positive amount [createTransaction] throws
    [InsufficientFunds], whatever the later indices hold. *)
Theorem empty_wallet_cannot_pay fuel address amount :
  recordsAt this db account 0 = Ok [] ->
  recordsAt this db account 1 = Ok [] ->
  0 < amount ->
  createTransaction this db (S (S fuel)) account address amount
  = Throw (ClientError InsufficientFunds).
Proof.
  intros H0 H1 Hpos. unfold createTransaction.
  destruct (selectUtxos_round (S fuel) amount 0 (mkSelection 0 [] []) [] H0 Hpos)
    as [ra0 ->].
  change (selectFrom amount ra0 0 [] (mkSelection 0 [] [])) with (mkSelection 0 [] []).
  change (Nat.eqb (length (@nil Utxo.t)) 0 && Nat.ltb 0 0) with false. cbv iota.
  destruct (selectUtxos_round fuel amount 1 (mkSelection 0 [] []) [] H1 Hpos)
    as [ra1 ->].
  change (Nat.eqb (length (@nil Utxo.t)) 0 && Nat.ltb 0 1) with true. cbv iota.
  simpl. replace (0 <? amount) with true by (symmetry; apply Z.ltb_lt; exact Hpos).
  reflexivity.
Qed.
End Spendability.

(** ** The wallet: the exceptions it throws *)

Lemma libraryFault_Raise {A} : libraryFault (@Raise A LibraryError).
Proof. intros e H. congruence. Qed.

Lemma libraryFault_withKey {A} (k : option string) (f : string -> result A) :
  (forall key, libraryFault (f key)) -> libraryFault (withKey k f).
Proof. intros Hf. destruct k; simpl; [apply Hf | apply libraryFault_Raise]. Qed.

Lemma libraryFaultOutcome_finished {A} (r : result A) :
  libraryFault r -> libraryFaultOutcome (finished r).
Proof.
  intros Hr e. destruct r as [a|e']; simpl; intros H; [discriminate|].
  apply (Hr e). congruence.
Qed.

Lemma libraryFaultOutcome_bind {A B} (o : outcome A) (k : A -> outcome B) :
  libraryFaultOutcome o -> (forall a, libraryFaultOutcome (k a)) ->
  libraryFaultOutcome (obind o k).
Proof.
  intros Ho Hk e. destruct o as [a|e'|]; simpl.
  - exact (Hk a e).
  - intros H. apply (Ho e). congruence.
  - discriminate.
Qed.

Lemma libraryFaultOutcome_Ret {A} (a : A) : libraryFaultOutcome (Ret a).
Proof. intros e H. discriminate. Qed.

Section WalletFaults.
Context `{L : Lib}.
Hypothesis plain : PlainLibrary.

Lemma getReceiveKeys_fault mnemonic account :
  libraryFault (getReceiveKeys mnemonic account).
Proof.
  unfold getReceiveKeys.
  apply libraryFault_bind; [apply (plain_mnemonicToSeed plain)|]. intros seed.
  apply libraryFault_bind; [apply (plain_fromMasterSeed plain)|]. intros root.
  apply libraryFault_bind; [apply (plain_derive plain)|]. intros key.
  apply libraryFault_bind; [apply (plain_privateExtendedKey plain)|]. intros priv.
  apply libraryFault_Ok.
Qed.

Lemma getChangeKeys_fault mnemonic account :
  libraryFault (getChangeKeys mnemonic account).
Proof.
  unfold getChangeKeys.
  apply libraryFault_bind; [apply (plain_mnemonicToSeed plain)|]. intros seed.
  apply libraryFault_bind; [apply (plain_fromMasterSeed plain)|]. intros root.
  apply libraryFault_bind; [apply (plain_derive plain)|]. intros key.
  apply libraryFault_bind; [apply (plain_privateExtendedKey plain)|]. intros priv.
  apply libraryFault_Ok.
Qed.

Lemma getChildKeys_fault key index : libraryFault (getChildKeys key index).
Proof.
  unfold getChildKeys.
  apply libraryFault_bind; [apply (plain_fromExtendedKey plain)|]. intros parent.
  apply libraryFault_bind; [apply (plain_deriveChild plain)|]. intros child.
  destruct (hasPrivateKey parent); [|apply libraryFault_Ok].
  apply libraryFault_bind; [apply (plain_privateExtendedKey plain)|]. intros priv.
  apply libraryFault_Ok.
Qed.

Lemma signHash_fault hash key : libraryFault (signHash hash key).
Proof.
  unfold signHash.
  apply libraryFault_bind; [apply (plain_fromExtendedKey plain)|]. intros keyPair.
  apply libraryFault_bind; [apply libraryFault_base58_decode; exact plain|].
  intros decoded.
  apply libraryFault_bind; [apply (plain_hd_sign plain)|]. intros signature.
  apply libraryFault_Ok.
Qed.

Variable this : Client.t.
Variable db : Db.

Lemma selectUtxos_fault fuel account amount : forall index sel,
  libraryFaultOutcome (selectUtxos this db fuel account amount index sel).
Proof.
  induction fuel as [|fuel IH]; intros index sel; simpl;
    (destruct (total sel <? amount); [|apply libraryFaultOutcome_Ret]).
  - intros e H. discriminate.
  - apply libraryFaultOutcome_bind;
      [apply libraryFaultOutcome_finished, getReceiveKeys_fault|]. intros rp.
    apply libraryFaultOutcome_bind;
      [apply libraryFaultOutcome_finished, getChangeKeys_fault|]. intros cp.
    apply libraryFaultOutcome_bind;
      [apply libraryFaultOutcome_finished, getChildKeys_fault|]. intros rk.
    apply libraryFaultOutcome_bind;
      [apply libraryFaultOutcome_finished, getChildKeys_fault|]. intros ck.
    destruct (_ && _); [apply libraryFaultOutcome_Ret | apply IH].
Qed.

Lemma nextUnused_fault fuel parentKey : forall index,
  libraryFaultOutcome (nextUnused db fuel parentKey index).
Proof.
  induction fuel as [|fuel IH]; intros index; simpl.
  - intros e H. discriminate.
  - apply libraryFaultOutcome_bind;
      [apply libraryFaultOutcome_finished, getChildKeys_fault|]. intros derived.
    destruct (Store.getUtxo db _); [apply IH | apply libraryFaultOutcome_Ret].
Qed.

Lemma signInputs_fault account txHash selected :
  libraryFault (signInputs this account txHash selected).
Proof.
  induction selected as [|s selected IH]; simpl; [apply libraryFault_Ok|].
  apply libraryFault_bind.
  { destruct (type s); [apply getReceiveKeys_fault | apply getChangeKeys_fault]. }
  intros parent.
  apply libraryFault_bind;
    [apply libraryFault_withKey; intros; apply getChildKeys_fault|]. intros keyPair.
  apply libraryFault_bind;
    [apply libraryFault_withKey; intros; apply signHash_fault|]. intros signature.
  apply libraryFault_bind; [exact IH|]. intros signatures.
  apply libraryFault_Ok.
Qed.

(** X16. When the libraries raise nothing but their own exceptions, the one
    [ClientError] that [createTransaction] throws is [InsufficientFunds],
    and only when the selection loop ends with a total below the amount:
    the check of a negative change that follows can never fire, so
    [InvalidTransactionAmount] is never thrown; every other exception comes
    out of a library. *)
Theorem insufficient_funds_only fuel account address amount e :
  createTransaction this db fuel account address amount = Throw e ->
  e = LibraryError
  \/ (e = ClientError InsufficientFunds
      /\ exists sel,
           selectUtxos this db fuel account amount 0 (mkSelection 0 [] []) = Ret sel
           /\ total sel < amount).
Proof.
  unfold createTransaction. intros H.
  destruct (selectUtxos this db fuel account amount 0 (mkSelection 0 [] []))
    as [sel|e0|] eqn:Hsel; simpl in H; [| |discriminate].
  2:{ left. injection H as <-. exact (selectUtxos_fault _ _ _ _ _ _ Hsel). }
  destruct (total sel <? amount) eqn:Hlt.
  { right. injection H as <-. split; [reflexivity|]. exists sel.
    split; [reflexivity|]. apply Z.ltb_lt. exact Hlt. }
  apply Z.ltb_ge in Hlt.
  replace (total sel - amount <? 0) with false in H
    by (symmetry; apply Z.ltb_ge; lia).
  left. revert H. generalize e.
  change (libraryFaultOutcome
    (let* changeAddressForOutput :=
       if 0 <? total sel - amount
       then let* changeParent := getChangeKeys (Client.mnemonic this) account in
            let* a := nextUnused db fuel (publicKey changeParent) 0 in
            Ret (Some a)
       else Ret None in
     let* recipientAddress := nextUnused db fuel address 0 in
     let utxoOuts :=
       Out.mk recipientAddress amount ::
       (if 0 <? total sel - amount
        then match changeAddressForOutput with
             | Some a => [Out.mk a (total sel - amount)]
             | None => []
             end
        else []) in
     let tx := Tx.mk None (utxoIns sel) utxoOuts [] None in
     let txHash := getTransactionHash tx in
     let* signatures := signInputs this account txHash (selectedUtxos sel) in
     let tx := Tx.set_signatures signatures tx in
     Ret (Tx.set_id (Some (getTransactionHash tx)) tx))).
  apply libraryFaultOutcome_bind.
  { destruct (0 <? total sel - amount); [|apply libraryFaultOutcome_Ret].
    apply libraryFaultOutcome_bind;
      [apply libraryFaultOutcome_finished, getChangeKeys_fault|]. intros cp.
    apply libraryFaultOutcome_bind; [apply nextUnused_fault|]. intros a.
    apply libraryFaultOutcome_Ret. }
  intros changeAddress.
  apply libraryFaultOutcome_bind; [apply nextUnused_fault|]. intros recipientAddress.
  cbv zeta.
  apply libraryFaultOutcome_bind;
    [apply libraryFaultOutcome_finished, signInputs_fault|]. intros signatures.
  apply libraryFaultOutcome_Ret.
Qed.
End WalletFaults.

(** ** The wallet: amounts that are not positive, and where the outputs go *)

Section BuiltOutputs.
Context `{L : Lib}.
Variable this : Client.t.
Variable db : Db.

(** X17. For an amount that is not positive [createTransaction] selects no
    input and signs nothing; the transaction it returns, when the address
    searches end, is rejected by [addTransaction] on the same store for the
    amount of its first output. *)
Theorem nonpositive_amount_rejected fuel account address amount tx :
  amount <= 0 ->
  createTransaction this db fuel account address amount = Ret tx ->
  Tx.utxoIns tx = [] /\ Tx.signatures tx = []
  /\ exists recipientAddress,
       head (Tx.utxoOuts tx) = Some (Out.mk recipientAddress amount)
       /\ addTransaction tx db
          = (Raise (ValidationError (InvalidOutputAmount recipientAddress)), db).
Proof.
  intros Hle H. apply createTransaction_Ret in H.
  destruct H as (sel & a & changeOuts & signatures & Hsel & _ & _ & _ & Hsig & ->).
  assert (sel = mkSelection 0 [] []) as ->.
  { assert ((0 <? amount) = false) as Hlt by (apply Z.ltb_ge; exact Hle).
    destruct fuel; simpl in Hsel; rewrite Hlt in Hsel; injection Hsel as <-;
      reflexivity. }
  simpl in Hsig. injection Hsig as <-. simpl.
  split; [reflexivity|]. split; [reflexivity|]. exists a. split; [reflexivity|].
  unfold addTransaction. simpl.
  case_bool_decide as Hin; [apply elem_of_empty in Hin; destruct Hin|].
  replace (amount <=? 0) with true by (symmetry; apply Z.leb_le; exact Hle).
  reflexivity.
Qed.

(** X18. Every output of a transaction [createTransaction] returns is at an
    address the store has no record of; and the address paid is a child of
    the key that was passed for the recipient, not the key itself. *)
Theorem built_transaction_outputs_unused fuel account address amount tx :
  createTransaction this db fuel account address amount = Ret tx ->
  Forall (fun o => Store.getUtxo db (Out.address o) = None) (Tx.utxoOuts tx)
  /\ (exists i recipientAddress,
        childAddress address i = Ok recipientAddress
        /\ head (Tx.utxoOuts tx) = Some (Out.mk recipientAddress amount)).
Proof.
  intros H. apply createTransaction_Ret in H.
  destruct H as (sel & a & changeOuts & signatures & _ & _ & Hchange & Ha & _ & ->).
  apply nextUnused_Ret in Ha. destruct Ha as (i & _ & Hchild & Hnone & _).
  simpl. split; [|eauto].
  constructor; [exact Hnone|].
  unfold changeOutput in Hchange.
  destruct (0 <? total sel - amount); [|subst; constructor].
  destruct Hchange as (cp & c & _ & Hc & ->).
  apply nextUnused_Ret in Hc. destruct Hc as (j & _ & _ & Hcnone & _).
  constructor; [exact Hcnone | constructor].
Qed.
End BuiltOutputs.

(** ** The further properties on the ledgers of the instance *)

Section FurtherOnLedger.
#[local] Existing Instance Toy.lib.

Lemma toy_plain : PlainLibrary.
Proof.
  split; intros; intros e H; simpl in H; try discriminate.
  - unfold Toy.parse in H. destruct k as [|c rest]; [congruence|].
    destruct (forallb _ _); [|congruence].
    destruct (Ascii.eqb c "S"); [discriminate|].
    destruct (Ascii.eqb c "P"); [discriminate | congruence].
  - destruct (Toy.secret k); [discriminate | congruence].
  - destruct (Toy.secret k); [discriminate | congruence].
Qed.

Lemma toy_hashIgnoresId : hashIgnoresId.
Proof. intros tx i. reflexivity. Qed.

Lemma toy_blockHashIgnoresId : blockHashIgnoresId.
Proof. intros b i. reflexivity. Qed.

Lemma twoCoins_keyed : storeKeyed Scenes.twoCoins.
Proof.
  intros a u. unfold Store.getUtxo, Scenes.twoCoins. simpl.
  intros H. apply lookup_insert_Some in H. destruct H as [[<- <-] | [_ H]];
    [reflexivity|].
  apply lookup_insert_Some in H. destruct H as [[<- <-] | [_ H]]; [reflexivity|].
  rewrite lookup_empty in H. discriminate.
Qed.

Lemma pooled_keyed : poolKeyed Ledger.pooled.
Proof.
  unfold poolKeyed.
  replace (pool Ledger.pooled) with [Ledger.payment] by (vm_compute; reflexivity).
  constructor; [|constructor]. split; vm_compute; reflexivity.
Qed.

Lemma transaction_accepted_iff_witness :
  acceptable Ledger.genesis Ledger.payment
  /\ Ledger.pooled = pooledWith Ledger.payment Ledger.genesis.
Proof.
  apply (transaction_accepted_iff Ledger.payment Ledger.genesis Ledger.pooled).
  - vm_compute. discriminate.
  - vm_compute. discriminate.
  - vm_compute. reflexivity.
Defined.

Lemma rejected_transaction_writes_nothing_witness :
  fst (addTransaction Scenes.forged Ledger.genesis)
  = Raise (ValidationError (UtxoMissing "Pnobody"))
  /\ Ledger.after (addTransaction Scenes.forged) Ledger.genesis = Ledger.genesis
  /\ fst (addTransaction Scenes.garbled Ledger.genesis) = Raise LibraryError
  /\ Ledger.after (addTransaction Scenes.garbled) Ledger.genesis = Ledger.genesis.
Proof.
  split; [vm_compute; reflexivity|]. split; [|split; [vm_compute; reflexivity|]].
  - apply (rejected_transaction_writes_nothing Scenes.forged Ledger.genesis
             (ValidationError (UtxoMissing "Pnobody"))).
    + right. eexists. reflexivity.
    + vm_compute. reflexivity.
  - apply (rejected_transaction_writes_nothing Scenes.garbled Ledger.genesis
             LibraryError).
    + left. reflexivity.
    + vm_compute. reflexivity.
Defined.

Lemma transaction_id_not_checked_witness :
  Tx._id Ledger.payment <> Some "Tforged"
  /\ addTransaction (Tx.set_id (Some "Tforged") Ledger.payment) Ledger.genesis
     = (Ok tt, pooledWith (Tx.set_id (Some "Tforged") Ledger.payment) Ledger.genesis).
Proof.
  split; [vm_compute; discriminate|].
  apply (transaction_id_not_checked Ledger.payment (Some "Tforged")
           Ledger.genesis Ledger.pooled).
  - exact toy_hashIgnoresId.
  - vm_compute. reflexivity.
Defined.

Lemma malformed_signature_raises_witness :
  addTransaction Scenes.garbled Ledger.genesis = (Raise LibraryError, Ledger.genesis).
Proof.
  apply (malformed_signature_raises Scenes.garbled Ledger.genesis Ledger.receive0 []
           (Utxo.mk Ledger.receive0 150 (Some "1111g") None) "0O" []).
  - exact toy_plain.
  - reflexivity.
  - reflexivity.
  - reflexivity.
  - vm_compute. reflexivity.
  - vm_compute. reflexivity.
Defined.

Lemma rejected_block_writes_nothing_witness :
  fst (addBlock Toy.server Ledger.unsealed (Mined.coinbase Ledger.mined) Ledger.refs
         Ledger.pooled)
  = Raise (ValidationError BadDifficulty)
  /\ Ledger.after (addBlock Toy.server Ledger.unsealed (Mined.coinbase Ledger.mined)
                     Ledger.refs) Ledger.pooled = Ledger.pooled
  /\ fst (addBlock Toy.server Ledger.wrongRoot (Mined.coinbase Ledger.mined) Ledger.refs
            Ledger.pooled)
     = Raise (ValidationError InvalidMerkleRoot)
  /\ Ledger.after (addBlock Toy.server Ledger.wrongRoot (Mined.coinbase Ledger.mined)
                     Ledger.refs) Ledger.pooled = Ledger.pooled.
Proof.
  split; [vm_compute; reflexivity|]. split; [|split; [vm_compute; reflexivity|]].
  - apply (rejected_block_writes_nothing Toy.server Ledger.unsealed
             (Mined.coinbase Ledger.mined) Ledger.refs Ledger.pooled BadDifficulty).
    vm_compute. reflexivity.
  - apply (rejected_block_writes_nothing Toy.server Ledger.wrongRoot
             (Mined.coinbase Ledger.mined) Ledger.refs Ledger.pooled InvalidMerkleRoot).
    vm_compute. reflexivity.
Defined.

Lemma mined_block_accepted_witness :
  addBlock Toy.server (Mined.block Ledger.mined) (Mined.coinbase Ledger.mined)
    (map refOf (Mined.transactions Ledger.mined)) Ledger.pooled
  = (Ok tt, blockCommitted (Mined.block Ledger.mined) (Mined.coinbase Ledger.mined)
              (map refOf (Mined.transactions Ledger.mined)) Ledger.pooled).
Proof.
  apply (mined_block_accepted Toy.client Toy.server Ledger.pooled 4 0 Ledger.mined).
  - exact toy_hashIgnoresId.
  - exact toy_blockHashIgnoresId.
  - exact pooled_keyed.
  - reflexivity.
  - reflexivity.
  - vm_compute. reflexivity.
Defined.

Lemma zero_is_not_configurable_witness :
  (exists rest, getBlockHash (Mined.block Ledger.mined) = String "1" rest)
  /\ exists address reward,
       Tx.utxoOuts (Mined.coinbase Ledger.mined) = [Out.mk address reward]
       /\ reward <> 0
       /\ (Config.amount Scenes.zeros = Some reward
           \/ (reward = 100 /\ (Config.amount Scenes.zeros = None
                                \/ Config.amount Scenes.zeros = Some 0))).
Proof.
  apply (zero_is_not_configurable Scenes.zeros (Mined.block Ledger.mined)
           (Mined.coinbase Ledger.mined) Ledger.refs Ledger.pooled Ledger.confirmed).
  vm_compute. reflexivity.
Defined.
Lemma built_transaction_conserves_value_witness :
  outputTotal (Tx.utxoOuts Scenes.bothSpent) = 130
  /\ inputTotal Scenes.twoCoins (Tx.utxoIns Scenes.bothSpent) = 130
  /\ length (Tx.signatures Scenes.bothSpent) = 2%nat
  /\ Tx._id Scenes.bothSpent
     = Some (getTransactionHash (Tx.set_id None Scenes.bothSpent)).
Proof.
  destruct (built_transaction_conserves_value Toy.client Scenes.twoCoins 0
              twoCoins_keyed 4 Ledger.recipient 100 Scenes.bothSpent)
    as (Hsum & _ & Hlen & _ & Hid);
    [vm_compute; reflexivity | vm_compute; discriminate|].
  split; [reflexivity|]. split; [reflexivity|]. split; [exact Hlen | exact Hid].
Defined.

Lemma built_transaction_inputs_spendable_witness :
  Forall (fun a => exists u, Store.getUtxo Scenes.twoCoins a = Some u
                             /\ spendable u = true)
         [Ledger.receive0; Scenes.receive1].
Proof.
  apply (built_transaction_inputs_spendable Toy.client Scenes.twoCoins 0
           twoCoins_keyed 4 Ledger.recipient 100 Scenes.bothSpent).
  vm_compute. reflexivity.
Defined.

Lemma built_transaction_inputs_minimal_witness :
  Tx.utxoIns Scenes.bothSpent = [Ledger.receive0; Scenes.receive1]
  /\ inputTotal Scenes.twoCoins [Ledger.receive0] < 100.
Proof.
  split; [reflexivity|].
  apply (built_transaction_inputs_minimal Toy.client Scenes.twoCoins 0
           twoCoins_keyed 4 Ledger.recipient 100 Scenes.bothSpent
           [Ledger.receive0] Scenes.receive1).
  - vm_compute. reflexivity.
  - reflexivity.
  - vm_compute. discriminate.
Defined.

Lemma usable_balance_is_spendable_witness :
  getBalance Toy.client Ledger.genesis 4 0 = Ret (mkBalance 150 0)
  /\ exists sel,
       selectUtxos Toy.client Ledger.genesis 4 0 100 0 (mkSelection 0 [] []) = Ret sel
       /\ (total sel <? 100) = false.
Proof.
  split; [vm_compute; reflexivity|].
  apply (usable_balance_is_spendable Toy.client Ledger.genesis 0 4 100
           (mkBalance 150 0)).
  - vm_compute. reflexivity.
  - simpl. lia.
Defined.

Lemma balance_stops_before_selection_witness :
  getBalance Toy.client Scenes.hidden 1 0 = Ret (mkBalance 0 0)
  /\ exists sel,
       selectUtxos Toy.client Scenes.hidden 2 0 50 0 (mkSelection 0 [] []) = Ret sel
       /\ 50 <= total sel
       /\ sublist (map utxo (selectedUtxos sel)) Scenes.hiddenRecords.
Proof.
  apply (balance_stops_before_selection Toy.client Scenes.hidden 0 0 50
           Scenes.hiddenRecords).
  - vm_compute. reflexivity.
  - vm_compute. reflexivity.
  - vm_compute. split; [reflexivity | discriminate].
Defined.

Lemma empty_wallet_cannot_pay_witness :
  createTransaction Toy.client Scenes.empty 2 0 Ledger.recipient 1
  = Throw (ClientError InsufficientFunds).
Proof.
  apply (empty_wallet_cannot_pay Toy.client Scenes.empty 0 0 Ledger.recipient 1).
  - vm_compute. reflexivity.
  - vm_compute. reflexivity.
  - lia.
Defined.

Lemma insufficient_funds_only_witness :
  ClientError InsufficientFunds = LibraryError
  \/ (ClientError InsufficientFunds = ClientError InsufficientFunds
      /\ exists sel,
           selectUtxos Toy.client Ledger.genesis 4 0 1000 0 (mkSelection 0 [] []) = Ret sel
           /\ total sel < 1000).
Proof.
  apply (insufficient_funds_only toy_plain Toy.client Ledger.genesis 4 0
           Ledger.recipient 1000 (ClientError InsufficientFunds)).
  vm_compute. reflexivity.
Defined.

Lemma nonpositive_amount_rejected_witness :
  Tx.utxoIns Scenes.refund = [] /\ Tx.signatures Scenes.refund = []
  /\ exists recipientAddress,
       head (Tx.utxoOuts Scenes.refund) = Some (Out.mk recipientAddress (-5))
       /\ addTransaction Scenes.refund Ledger.genesis
          = (Raise (ValidationError (InvalidOutputAmount recipientAddress)),
             Ledger.genesis).
Proof.
  apply (nonpositive_amount_rejected Toy.client Ledger.genesis 4 0 Ledger.recipient
           (-5) Scenes.refund).
  - lia.
  - vm_compute. reflexivity.
Defined.

Lemma built_transaction_outputs_unused_witness :
  Forall (fun o => Store.getUtxo Ledger.genesis (Out.address o) = None)
         (Tx.utxoOuts Ledger.payment)
  /\ (exists i recipientAddress,
        childAddress Ledger.recipient i = Ok recipientAddress
        /\ head (Tx.utxoOuts Ledger.payment) = Some (Out.mk recipientAddress 100)).
Proof.
  apply (built_transaction_outputs_unused Toy.client Ledger.genesis 4 0
           Ledger.recipient 100 Ledger.payment).
  vm_compute. reflexivity.
Defined.
End FurtherOnLedger.
